(** * The event-hub consumer client ([eventhub/consumer/consumer.go])

    A shallow embedding of [OBCEventClient] and of the [EventAdapter]
    interface it drives: the registration handshake ([register]), the receive
    loop ([processEvents]) and the two public operations [Start] and [Stop].

    Go values are modelled as follows.
    - An [error] is [option error]: [None] is Go's [nil].
    - A slice that the code compares with [nil] is [option (list _)]:
      [None] is the nil slice, [Some []] an empty slice that is not nil.
    - An interface-typed field that may be nil ([ec.stream], [ec.adapter]) is
      an [option]; a method call through a nil interface panics.
    - Every call that leaves the client (dial, stream operations, adapter
      methods, [go]) is recorded, in order, in a trace of [Call]s. *)

From Stdlib Require Import List String Bool ZArith.
Import ListNotations.
Open Scope string_scope.
Open Scope list_scope.

Set Implicit Arguments.

(** ** Errors *)

(** Go [error] values.  The receive loop only ever compares an error with the
    sentinel [io.EOF]; all other errors are told apart by their message. *)
Inductive error : Type :=
| io_EOF
| Errorf (msg : string).

(** How a Go call ends, as far as its caller can tell. *)
Inductive Outcome : Type :=
| Returned (err : option error)   (* the call returned [err] *)
| Panicked                        (* nil dereference: the call never returns *)
| Pending.                        (* the call is still blocked *)

(** ** Wire messages (package [ehpb]) *)

(** Modelled from the spec: the generated protobuf types of
    [eventhub/protos] are not part of the sources at hand.  An interest
    descriptor is an opaque category name. *)
Record InterestedEvent : Type := { EventType : string }.

(** Modelled from the spec: [ehpb.RegisterEvent], the interest set as the
    slice it was built from. *)
Record RegisterEvent : Type := { Events : option (list InterestedEvent) }.

(** Modelled from the spec: the [oneof Event] of [ehpb.EventHubMessage].  The
    code names two variants and has a [default] arm for any further one, kept
    here as [EventHubMessage_Other] with its field number. *)
Inductive isEventHubMessage_Event : Type :=
| EventHubMessage_RegisterEvent (r : RegisterEvent)
| EventHubMessage_TransactionEvent (payload : string)
| EventHubMessage_Other (field : nat).

(** Modelled from the spec: [ehpb.EventHubMessage]; [Event = None] is the
    unset [oneof], the [case nil] of the type switch. *)
Record EventHubMessage : Type := { Event : option isEventHubMessage_Event }.

(** ** The stream ([ehpb.EventHub_ChatClient]) *)

(** What one call of [stream.Recv()] returns: a message with a nil error, or
    an error.  (The generated stream client allocates the message before it
    decodes into it, so a nil error comes with a message.) *)
Inductive RecvResult : Type :=
| RecvMsg (m : EventHubMessage)
| RecvErr (e : error).

(** The peer's side of the stream, as a script: what the next [Send] and
    [CloseSend] report and the results of the coming [Recv] calls, in order.
    When [inbound] is exhausted the peer is silent and [Recv] blocks. *)
Record Stream : Type := {
  sendErr  : option error;
  closeErr : option error;
  inbound  : list RecvResult;
  outbound : list EventHubMessage;   (* frames sent so far, oldest first *)
  halfClosed : nat                   (* number of [CloseSend] calls so far *)
}.

Module ChatClient.

Definition Send (s : Stream) (m : EventHubMessage) : Stream * option error :=
  ({| sendErr := sendErr s; closeErr := closeErr s; inbound := inbound s;
      outbound := outbound s ++ [m]; halfClosed := halfClosed s |},
   sendErr s).

(** [None]: the call blocks, nothing is consumed. *)
Definition Recv (s : Stream) : Stream * option RecvResult :=
  match inbound s with
  | [] => (s, None)
  | r :: rest =>
      ({| sendErr := sendErr s; closeErr := closeErr s; inbound := rest;
          outbound := outbound s; halfClosed := halfClosed s |}, Some r)
  end.

Definition CloseSend (s : Stream) : Stream * option error :=
  ({| sendErr := sendErr s; closeErr := closeErr s; inbound := inbound s;
      outbound := outbound s; halfClosed := S (halfClosed s) |},
   closeErr s).

Definition withInbound (s : Stream) (l : list RecvResult) : Stream :=
  {| sendErr := sendErr s; closeErr := closeErr s; inbound := l;
     outbound := outbound s; halfClosed := halfClosed s |}.

End ChatClient.

(** ** The subscriber ([EventAdapter]) *)

(** The interface of [consumer/adapter.go]; an implementation carries its own
    state of type [A], which every method may update. *)
Class EventAdapter (A : Type) : Type := {
  GetInterestedEvents : A -> A * option (list InterestedEvent);
  Recv : A -> EventHubMessage -> A * option error;
  Done : A -> option error -> A
}.

(** ** Traces *)

Inductive Call : Type :=
| EvDial (addr : string)                              (* grpc.Dial *)
| EvGetInterestedEvents                               (* adapter.GetInterestedEvents() *)
| EvChat                                              (* serverClient.Chat(ctx) *)
| EvSend (m : EventHubMessage) (ret : option error)   (* stream.Send(m) *)
| EvStreamRecv (r : RecvResult)                       (* stream.Recv() returned r *)
| EvCloseSend                                         (* stream.CloseSend() *)
| EvRecv (m : EventHubMessage) (ret : option error)   (* adapter.Recv(m) returned ret *)
| EvDone (e : option error)                           (* adapter.Done(e) *)
| EvGo.                                               (* go ec.processEvents() *)

Definition isDone (e : Call) : bool :=
  match e with EvDone _ => true | _ => false end.

Definition isAdapterRecv (e : Call) : bool :=
  match e with EvRecv _ _ => true | _ => false end.

Definition isStreamRecv (e : Call) : bool :=
  match e with EvStreamRecv _ => true | _ => false end.

Definition isGo (e : Call) : bool :=
  match e with EvGo => true | _ => false end.

(** Calls on the subscriber. *)
Definition isAdapterCall (e : Call) : bool :=
  match e with
  | EvGetInterestedEvents | EvRecv _ _ | EvDone _ => true
  | _ => false
  end.

(** Calls that touch the network: the dial and every stream operation. *)
Definition isNetwork (e : Call) : bool :=
  match e with
  | EvDial _ | EvChat | EvSend _ _ | EvStreamRecv _ | EvCloseSend => true
  | _ => false
  end.

(** Opening a stream or moving a frame on it. *)
Definition isStreamActivity (e : Call) : bool :=
  match e with
  | EvChat | EvSend _ _ | EvStreamRecv _ | EvCloseSend => true
  | _ => false
  end.

(** ** The client *)

Record OBCEventClient (A : Type) : Type := {
  peerAddress : string;
  stream : option Stream;
  adapter : option A
}.

Definition NewOBCEventHubClient {A : Type} (peerAddress : string)
  (adapter : option A) : OBCEventClient A :=
  {| peerAddress := peerAddress; stream := None; adapter := adapter |}.

(** ** The receive loop *)

Section ReceiveLoop.

Context {A : Type} `{EventAdapter A}.

(** The result of running the loop: the subscriber and the stream script as
    the loop leaves them, the calls made, and how the loop ended
    ([Pending]: blocked in [stream.Recv()]). *)
Record LoopResult : Type := {
  loopAdapter : option A;
  loopInbound : list RecvResult;
  loopTrace : list Call;
  loopOutcome : Outcome
}.

Definition emit (ev : list Call) (r : LoopResult) : LoopResult :=
  {| loopAdapter := loopAdapter r; loopInbound := loopInbound r;
     loopTrace := ev ++ loopTrace r; loopOutcome := loopOutcome r |}.

(** The body of [for { ... }] in [processEvents], by recursion on the
    results the stream still holds. *)
Fixpoint recvLoop (ad : option A) (inb : list RecvResult) : LoopResult :=
  match inb with
  | [] =>
      {| loopAdapter := ad; loopInbound := []; loopTrace := [];
         loopOutcome := Pending |}
  | RecvErr io_EOF :: rest =>
      match ad with
      | Some a =>
          {| loopAdapter := Some (Done a None); loopInbound := rest;
             loopTrace := [EvStreamRecv (RecvErr io_EOF); EvDone None];
             loopOutcome := Returned None |}
      | None =>
          {| loopAdapter := None; loopInbound := rest;
             loopTrace := [EvStreamRecv (RecvErr io_EOF)];
             loopOutcome := Returned None |}
      end
  | RecvErr err :: rest =>
      match ad with
      | Some a =>
          {| loopAdapter := Some (Done a (Some err)); loopInbound := rest;
             loopTrace := [EvStreamRecv (RecvErr err); EvDone (Some err)];
             loopOutcome := Returned (Some err) |}
      | None =>
          {| loopAdapter := None; loopInbound := rest;
             loopTrace := [EvStreamRecv (RecvErr err)];
             loopOutcome := Returned (Some err) |}
      end
  | RecvMsg m :: rest =>
      match ad with
      | Some a =>
          let (a', err) := Recv a m in
          match err with
          | Some e =>
              {| loopAdapter := Some a'; loopInbound := rest;
                 loopTrace := [EvStreamRecv (RecvMsg m); EvRecv m (Some e)];
                 loopOutcome := Returned (Some e) |}
          | None =>
              emit [EvStreamRecv (RecvMsg m); EvRecv m None]
                   (recvLoop (Some a') rest)
          end
      | None => emit [EvStreamRecv (RecvMsg m)] (recvLoop None rest)
      end
  end.

(** The result of [processEvents]: the loop result and the stream. *)
Record ProcessResult : Type := {
  procAdapter : option A;
  procStream : Stream;
  procTrace : list Call;
  procOutcome : Outcome
}.

(** [processEvents] on a client whose stream is set: the loop, then the
    deferred [ec.stream.CloseSend()] when the function returns (a loop that
    is still blocked has not reached it). *)
Definition processEventsOn (ad : option A) (s : Stream) : ProcessResult :=
  let r := recvLoop ad (inbound s) in
  let s1 := ChatClient.withInbound s (loopInbound r) in
  match loopOutcome r with
  | Returned e =>
      {| procAdapter := loopAdapter r;
         procStream := fst (ChatClient.CloseSend s1);
         procTrace := loopTrace r ++ [EvCloseSend];
         procOutcome := Returned e |}
  | o =>
      {| procAdapter := loopAdapter r; procStream := s1;
         procTrace := loopTrace r; procOutcome := o |}
  end.

(** [processEvents]; [None] when the stream is nil: the method call
    [ec.stream.CloseSend] of the [defer] statement panics at once. *)
Definition processEvents (ec : OBCEventClient A) : option ProcessResult :=
  match stream ec with
  | Some s => Some (processEventsOn (adapter ec) s)
  | None => None
  end.



End ReceiveLoop.


Arguments LoopResult : clear implicits.
Arguments ProcessResult : clear implicits.

(** ** The registration handshake *)

(** [register] runs two goroutines: the caller, which sends the request,
    spawns the helper and waits in [select]; and the helper, which receives
    the first frame, classifies it and signals on [regChan].  They share the
    variable [err] and the unbuffered channel [regChan].  The handshake is a
    transition system over the program points of both, driven by a schedule
    that says who moves next. *)

(** Program points of the caller, after the request was sent and the helper
    spawned. *)
Inductive MainPC : Type :=
| MEnterSelect                   (* about to evaluate [select], arming [time.After] *)
| MSelect                        (* parked in [select] *)
| MTimeoutBody                   (* in the timeout case, before [err = fmt.Errorf(...)] *)
| MReturn                        (* about to run [return err] *)
| MReturned (r : option error).  (* [register] has returned [r] *)

(** Program points of the helper goroutine. *)
Inductive HelperPC : Type :=
| HNone                  (* never spawned: the send failed *)
| HRecv                  (* inside [ec.stream.Recv()] *)
| HGot (r : RecvResult)  (* [Recv] returned, before the [if] and the [switch] *)
| HSend                  (* at [regChan <- struct{}{}], waiting for a receiver *)
| HClose                 (* function body left, deferred [close(regChan)] due *)
| HExit.                 (* goroutine finished *)

Inductive SelectCase : Type :=
| CaseRegChan            (* [case <-regChan] *)
| CaseTimeout.           (* [case <-time.After(5*time.Second)] *)

Record RegState : Type := {
  err : option error;            (* the captured variable [err] *)
  mpc : MainPC;
  hpc : HelperPC;
  timerFired : bool;             (* the 5 s of [time.After] have elapsed *)
  regChanClosed : bool;
  regStream : Stream;            (* [ec.stream] *)
  taken : option SelectCase;     (* the case [select] has chosen, if any *)
  regTrace : list Call           (* stream calls made so far *)
}.

Definition set_err (e : option error) (s : RegState) : RegState :=
  {| err := e; mpc := mpc s; hpc := hpc s; timerFired := timerFired s;
     regChanClosed := regChanClosed s; regStream := regStream s;
     taken := taken s; regTrace := regTrace s |}.

Definition set_mpc (p : MainPC) (s : RegState) : RegState :=
  {| err := err s; mpc := p; hpc := hpc s; timerFired := timerFired s;
     regChanClosed := regChanClosed s; regStream := regStream s;
     taken := taken s; regTrace := regTrace s |}.

Definition set_hpc (p : HelperPC) (s : RegState) : RegState :=
  {| err := err s; mpc := mpc s; hpc := p; timerFired := timerFired s;
     regChanClosed := regChanClosed s; regStream := regStream s;
     taken := taken s; regTrace := regTrace s |}.

Definition set_timerFired (s : RegState) : RegState :=
  {| err := err s; mpc := mpc s; hpc := hpc s; timerFired := true;
     regChanClosed := regChanClosed s; regStream := regStream s;
     taken := taken s; regTrace := regTrace s |}.

Definition set_regChanClosed (s : RegState) : RegState :=
  {| err := err s; mpc := mpc s; hpc := hpc s; timerFired := timerFired s;
     regChanClosed := true; regStream := regStream s;
     taken := taken s; regTrace := regTrace s |}.

Definition set_taken (c : SelectCase) (s : RegState) : RegState :=
  {| err := err s; mpc := mpc s; hpc := hpc s; timerFired := timerFired s;
     regChanClosed := regChanClosed s; regStream := regStream s;
     taken := Some c; regTrace := regTrace s |}.

(** The helper's [Recv] has returned [r], leaving the stream as [st]. *)
Definition received (st : Stream) (r : RecvResult) (s : RegState) : RegState :=
  {| err := err s; mpc := mpc s; hpc := HGot r; timerFired := timerFired s;
     regChanClosed := regChanClosed s; regStream := st;
     taken := taken s; regTrace := regTrace s ++ [EvStreamRecv r] |}.

Definition errTimeout : error := Errorf "timeout waiting for registration".

(** The [switch in.Event.(type)] of the helper: the error an arm assigns to
    [err]; the [*ehpb.EventHubMessage_RegisterEvent] arm is empty and assigns
    nothing. *)
Definition confirmationError (m : EventHubMessage) : option error :=
  match Event m with
  | Some (EventHubMessage_RegisterEvent _) => None
  | Some (EventHubMessage_TransactionEvent _) =>
      Some (Errorf "invalid Transaction object for register")
  | None => Some (Errorf "invalid nil object for register")
  | Some (EventHubMessage_Other _) => Some (Errorf "invalid registration object")
  end.

(** Who moves next. *)
Inductive Label : Type :=
| StepMain        (* the caller runs its next statement *)
| StepHelper      (* the helper runs its next statement *)
| TimerFires      (* the channel of [time.After] becomes ready *)
| SelectRegChan   (* [select] takes [case <-regChan] *)
| SelectTimeout.  (* [select] takes [case <-time.After(...)] *)

(** One move.  A move that is not possible in [s] (a goroutine that is
    blocked, a [select] case that is not ready) leaves [s] as it is. *)
Definition step (l : Label) (s : RegState) : RegState :=
  match l with
  | StepMain =>
      match mpc s with
      | MEnterSelect => set_mpc MSelect s
      | MTimeoutBody => set_mpc MReturn (set_err (Some errTimeout) s)
      | MReturn => set_mpc (MReturned (err s)) s
      | MSelect | MReturned _ => s
      end
  | StepHelper =>
      match hpc s with
      | HRecv =>
          match ChatClient.Recv (regStream s) with
          | (st, Some r) => received st r s
          | (_, None) => s
          end
      | HGot (RecvErr inerr) => set_hpc HClose (set_err (Some inerr) s)
      | HGot (RecvMsg m) =>
          match confirmationError m with
          | Some e => set_hpc HSend (set_err (Some e) s)
          | None => set_hpc HSend s
          end
      | HClose => set_hpc HExit (set_regChanClosed s)
      | HNone | HSend | HExit => s
      end
  | TimerFires =>
      match mpc s with
      | MEnterSelect => s
      | _ => set_timerFired s
      end
  | SelectRegChan =>
      match mpc s with
      | MSelect =>
          match hpc s with
          | HSend => set_taken CaseRegChan (set_mpc MReturn (set_hpc HClose s))
          | _ =>
              if regChanClosed s
              then set_taken CaseRegChan (set_mpc MReturn s)
              else s
          end
      | _ => s
      end
  | SelectTimeout =>
      match mpc s with
      | MSelect =>
          if timerFired s
          then set_taken CaseTimeout (set_mpc MTimeoutBody s)
          else s
      | _ => s
      end
  end.

Fixpoint run (sched : list Label) (s : RegState) : RegState :=
  match sched with
  | [] => s
  | l :: rest => run rest (step l s)
  end.

(** The registration request built from the interest set. *)
Definition registerRequest (ies : option (list InterestedEvent)) : EventHubMessage :=
  {| Event := Some (EventHubMessage_RegisterEvent {| Events := ies |}) |}.

(** The state in which the caller has sent the request on [st] (the stream
    after the send) and spawned the helper. *)
Definition spawned (st : Stream) (emsg : EventHubMessage) : RegState :=
  {| err := None; mpc := MEnterSelect; hpc := HRecv; timerFired := false;
     regChanClosed := false; regStream := st; taken := None;
     regTrace := [EvSend emsg None] |}.

(** [register] on the stream [s] under the schedule [sched]: the state the
    handshake is in when the schedule ends. *)
Definition register (s : Stream) (ies : option (list InterestedEvent))
  (sched : list Label) : RegState :=
  let emsg := registerRequest ies in
  let (st, e) := ChatClient.Send s emsg in
  match e with
  | Some e' =>
      {| err := Some e'; mpc := MReturned (Some e'); hpc := HNone;
         timerFired := false; regChanClosed := false; regStream := st;
         taken := None; regTrace := [EvSend emsg (Some e')] |}
  | None => run sched (spawned st emsg)
  end.

Definition regOutcome (s : RegState) : Outcome :=
  match mpc s with
  | MReturned r => Returned r
  | _ => Pending
  end.

(** The helper can never move again: it waits at the unbuffered send and the
    only receiver has left [register]. *)
Definition helperStuck (s : RegState) : bool :=
  match hpc s, mpc s with
  | HSend, MReturned _ => true
  | _, _ => false
  end.

(** ** Start and Stop *)

(** The transport and the peer: what [grpc.Dial] reports for an address
    ([None]: a connection) and what [Chat] returns on that connection. *)
Record Network : Type := {
  dial : string -> option error;
  chat : Stream + error
}.

Record StartResult (A : Type) : Type := {
  startOutcome : Outcome;
  startClient : OBCEventClient A;
  startTrace : list Call;
  loopStarted : bool;             (* [go ec.processEvents()] was executed *)
  handshake : option RegState     (* the handshake, when [register] was called *)
}.

Section Lifecycle.

Context {A : Type} `{EventAdapter A}.

Definition connError (addr : string) : error :=
  Errorf ("Could not create client conn to " ++ addr).

Definition Start (ec : OBCEventClient A) (net : Network) (sched : list Label)
  : StartResult A :=
  let addr := peerAddress ec in
  match dial net addr with
  | Some _ =>
      {| startOutcome := Returned (Some (connError addr)); startClient := ec;
         startTrace := [EvDial addr]; loopStarted := false; handshake := None |}
  | None =>
      match adapter ec with
      | None =>
          {| startOutcome := Panicked; startClient := ec;
             startTrace := [EvDial addr]; loopStarted := false;
             handshake := None |}
      | Some a =>
          let (a1, ies) := GetInterestedEvents a in
          let ec1 := {| peerAddress := addr; stream := stream ec;
                        adapter := Some a1 |} in
          match ies with
          | None =>
              {| startOutcome := Returned (Some (Errorf "no interested events"));
                 startClient := ec1;
                 startTrace := [EvDial addr; EvGetInterestedEvents];
                 loopStarted := false; handshake := None |}
          | Some _ =>
              match chat net with
              | inr _ =>
                  {| startOutcome := Returned (Some (connError addr));
                     startClient := {| peerAddress := addr; stream := None;
                                       adapter := Some a1 |};
                     startTrace := [EvDial addr; EvGetInterestedEvents; EvChat];
                     loopStarted := false; handshake := None |}
              | inl s =>
                  let st := register s ies sched in
                  let ec2 := {| peerAddress := addr;
                                stream := Some (regStream st);
                                adapter := Some a1 |} in
                  let tr := [EvDial addr; EvGetInterestedEvents; EvChat]
                              ++ regTrace st in
                  match mpc st with
                  | MReturned (Some e) =>
                      {| startOutcome := Returned (Some e); startClient := ec2;
                         startTrace := tr; loopStarted := false;
                         handshake := Some st |}
                  | MReturned None =>
                      {| startOutcome := Returned None; startClient := ec2;
                         startTrace := tr ++ [EvGo]; loopStarted := true;
                         handshake := Some st |}
                  | _ =>
                      {| startOutcome := Pending; startClient := ec2;
                         startTrace := tr; loopStarted := false;
                         handshake := Some st |}
                  end
              end
          end
      end
  end.

Definition Stop (ec : OBCEventClient A) : Outcome * OBCEventClient A :=
  match stream ec with
  | None => (Panicked, ec)
  | Some s =>
      let (s', e) := ChatClient.CloseSend s in
      (Returned e,
       {| peerAddress := peerAddress ec; stream := Some s';
          adapter := adapter ec |})
  end.

(** A whole subscription: [Start], and the receive loop it spawned run on
    what the stream still holds. *)
Definition subscription (ec : OBCEventClient A) (net : Network)
  (sched : list Label) : list Call :=
  let r := Start ec net sched in
  if loopStarted r
  then match processEvents (startClient r) with
       | Some p => startTrace r ++ procTrace p
       | None => startTrace r
       end
  else startTrace r.

End Lifecycle.

(** ** A concrete subscriber *)

(** A recording subscriber: it hands out [interests], remembers what it was
    given, and its [Recv] fails on transaction events carrying [rejects]. *)
Record Recorder : Type := {
  interests : option (list InterestedEvent);
  rejects : option string;
  seen : list EventHubMessage;
  finished : list (option error)
}.

Definition recorderRecv (a : Recorder) (m : EventHubMessage)
  : Recorder * option error :=
  let a' := {| interests := interests a; rejects := rejects a;
               seen := seen a ++ [m]; finished := finished a |} in
  match Event m, rejects a with
  | Some (EventHubMessage_TransactionEvent p), Some q =>
      if String.eqb p q then (a', Some (Errorf ("rejected " ++ p)))
      else (a', None)
  | _, _ => (a', None)
  end.

#[export] Instance Recorder_EventAdapter : EventAdapter Recorder := {
  GetInterestedEvents a := (a, interests a);
  Recv := recorderRecv;
  Done a e := {| interests := interests a; rejects := rejects a;
                 seen := seen a; finished := finished a ++ [e] |}
}.

Definition blockEvents : option (list InterestedEvent) :=
  Some [{| EventType := "block-events" |}].

Definition recorder (ies : option (list InterestedEvent))
  (rej : option string) : Recorder :=
  {| interests := ies; rejects := rej; seen := []; finished := [] |}.

Definition peer (inb : list RecvResult) : Stream :=
  {| sendErr := None; closeErr := None; inbound := inb; outbound := [];
     halfClosed := 0 |}.

Definition ack (ies : option (list InterestedEvent)) : EventHubMessage :=
  {| Event := Some (EventHubMessage_RegisterEvent {| Events := ies |}) |}.

Definition txEvent (p : string) : EventHubMessage :=
  {| Event := Some (EventHubMessage_TransactionEvent p) |}.

Definition reachable (s : Stream) : Network :=
  {| dial := fun _ => None; chat := inl s |}.

(** The schedule of a handshake whose confirmation comes in time: the helper
    receives and classifies, the caller enters [select] and meets the helper
    on [regChan], then returns. *)
Definition promptSchedule : list Label :=
  [StepHelper; StepHelper; StepMain; SelectRegChan; StepMain; StepHelper].

(** The schedule of a handshake that times out while the peer is silent. *)
Definition timeoutSchedule : list Label :=
  [StepMain; TimerFires; SelectTimeout; StepMain; StepMain].

(** The schedule of a handshake whose first frame comes after the timeout
    case has run to its end: the caller times out and returns, then the
    helper's [Recv] returns and the helper classifies the frame. *)
Definition lateSchedule : list Label :=
  timeoutSchedule ++ [StepHelper; StepHelper].

(** The same with the frame landing between the two statements of the
    timeout path, [err = fmt.Errorf(...)] and [return err]. *)
Definition racingSchedule : list Label :=
  [StepMain; TimerFires; SelectTimeout; StepMain;
   StepHelper; StepHelper; StepMain].

Definition peerAddr : string := "peer:31315".

(** A client whose subscriber wants block events and accepts every event. *)
Definition blockClient : OBCEventClient Recorder :=
  NewOBCEventHubClient peerAddr (Some (recorder blockEvents None)).

(** A client whose subscriber has no interest set (a nil slice). *)
Definition idleClient : OBCEventClient Recorder :=
  NewOBCEventHubClient peerAddr (Some (recorder None None)).

(** A client whose subscriber has an empty interest set that is not nil. *)
Definition emptyClient : OBCEventClient Recorder :=
  NewOBCEventHubClient peerAddr (Some (recorder (Some []) None)).

(** A client in the state [Start] leaves it in after a handshake on [s]. *)
Definition streaming (ad : option Recorder) (s : Stream)
  : OBCEventClient Recorder :=
  {| peerAddress := peerAddr; stream := Some s; adapter := ad |}.

(** Peers: one that confirms and then sends two events and closes; one that
    sends two events and closes; one whose stream breaks after an event; one
    that never answers; one that answers with an event instead of a
    confirmation; one that confirms an interest set nobody asked for. *)
Definition ackPeer : Stream :=
  peer [RecvMsg (ack blockEvents); RecvMsg (txEvent "A");
        RecvMsg (txEvent "B"); RecvErr io_EOF].

Definition closingPeer : Stream :=
  peer [RecvMsg (txEvent "A"); RecvMsg (txEvent "B"); RecvErr io_EOF].

Definition brokenPeer : Stream :=
  peer [RecvMsg (txEvent "A"); RecvErr (Errorf "transport is closing");
        RecvMsg (txEvent "B")].

Definition silentPeer : Stream := peer [].

Definition eventFirstPeer : Stream := peer [RecvMsg (txEvent "A")].

Definition strangeAckPeer : Stream :=
  peer [RecvMsg (ack (Some [{| EventType := "chaincode-events" |}]))].

(** A subscriber that accepts everything, and one that rejects event B. *)
Definition accepting : Recorder := recorder blockEvents None.

Definition rejectingB : Recorder := recorder blockEvents (Some "B").

(** ** Invariants of the handshake *)

(** What the helper assigns to [err] for the first result of [Recv], given
    that [err] held nil before: the receive error, or the error of the
    [switch] arm (nil for the empty arm). *)
Definition verdict (inb : list RecvResult) : option error :=
  match inb with
  | RecvErr e :: _ => Some e
  | RecvMsg m :: _ => confirmationError m
  | [] => None
  end.

(** The value of [err] as long as only the helper has written to it. *)
Definition helperErr (inb : list RecvResult) (h : HelperPC) : option error :=
  match h with
  | HNone | HRecv | HGot _ => None
  | HSend | HClose | HExit => verdict inb
  end.

(** The helper and the stream: until [Recv] returns, the stream is as the
    send left it; afterwards exactly the first result has been consumed. *)
Definition helperInv (st0 : Stream) (emsg : EventHubMessage) (s : RegState)
  : Prop :=
  match hpc s with
  | HNone => False
  | HRecv => regStream s = st0 /\ regTrace s = [EvSend emsg None]
  | h =>
      match inbound st0 with
      | [] => False
      | r :: rest =>
          regStream s = ChatClient.withInbound st0 rest
          /\ regTrace s = [EvSend emsg None; EvStreamRecv r]
          /\ match h with HGot r' => r' = r | _ => True end
      end
  end.

(** [regChan] is closed exactly when the helper has finished. *)
Definition closedInv (s : RegState) : Prop :=
  regChanClosed s = match hpc s with HExit => true | _ => false end.

(** The caller and [err], by the case [select] has taken. *)
Definition selectInv (inb : list RecvResult) (s : RegState) : Prop :=
  match taken s with
  | None =>
      (mpc s = MEnterSelect \/ mpc s = MSelect)
      /\ err s = helperErr inb (hpc s)
  | Some CaseRegChan =>
      (hpc s = HClose \/ hpc s = HExit)
      /\ err s = verdict inb
      /\ (mpc s = MReturn \/ mpc s = MReturned (verdict inb))
  | Some CaseTimeout =>
      timerFired s = true
      /\ match mpc s with
         | MTimeoutBody => True
         | MReturn => err s <> None /\ (hpc s = HRecv -> err s = Some errTimeout)
         | MReturned r => r <> None /\ (hpc s = HRecv -> r = Some errTimeout)
         | MEnterSelect | MSelect => False
         end
  end.

(** The helper gets past its send only by meeting the caller on [regChan];
    it skips the send only when [Recv] returned an error. *)
Definition exitInv (inb : list RecvResult) (s : RegState) : Prop :=
  match hpc s with
  | HClose | HExit =>
      match inb with
      | RecvErr _ :: _ => True
      | _ => taken s = Some CaseRegChan
      end
  | _ => True
  end.

Definition regInv (st0 : Stream) (emsg : EventHubMessage) (s : RegState)
  : Prop :=
  helperInv st0 emsg s /\ closedInv s /\ selectInv (inbound st0) s
  /\ exitInv (inbound st0) s.

(** ** The transport factory *)

(** The configuration store the connection is built from: [viper.GetBool]
    and [viper.GetString], which give [false] and the empty string for a key
    that is not set. *)
Record Viper : Type := {
  GetBool : string -> bool;
  GetString : string -> string
}.

(** [credentials.TransportAuthenticator], by the constructor that made it;
    [NewClientTLSFromCert] is always called with a nil certificate pool. *)
Inductive TransportAuthenticator : Type :=
| NewClientTLSFromFile (certFile serverName : string)
| NewClientTLSFromCert (serverName : string).

(** [grpc.DialOption], by the constructor that made it; a duration is a
    number of nanoseconds. *)
Inductive DialOption : Type :=
| WithTransportCredentials (creds : TransportAuthenticator)
| WithTimeout (d : Z)
| WithBlock
| WithInsecure.

Definition Second : Z := 1000000000.

Definition defaultTimeout : Z := Second * 3.

(** How [newEventHubClientConnectionWithAddress] ends: [grpclog.Fatalf] ends
    the process before any dial, or [grpc.Dial] was called with an address
    and options and its result is returned. *)
Inductive ConnResult : Type :=
| Fatalf (err : error)
| Dialed (target : string) (opts : list DialOption) (res : option error).

(** [newEventHubClientConnectionWithAddress].  The file system and the
    network are parameters: [readCert file] is the error of
    [credentials.NewClientTLSFromFile] on [file], if any, and [grpcDial] the
    error of [grpc.Dial], if any. *)
Definition newEventHubClientConnectionWithAddress (viper : Viper)
  (readCert : string -> option error)
  (grpcDial : string -> list DialOption -> option error)
  (peerAddress : string) : ConnResult :=
  let tls : list DialOption + error :=
    if GetBool viper "peer.tls.enabled" then
      let sn :=
        if negb (String.eqb (GetString viper "peer.tls.server-host-override") "")
        then GetString viper "peer.tls.server-host-override"
        else "" in
      if negb (String.eqb (GetString viper "peer.tls.cert.file") "") then
        match readCert (GetString viper "peer.tls.cert.file") with
        | Some err => inr err
        | None =>
            inl [WithTransportCredentials
                   (NewClientTLSFromFile (GetString viper "peer.tls.cert.file") sn)]
        end
      else inl [WithTransportCredentials (NewClientTLSFromCert sn)]
    else inl [] in
  match tls with
  | inr err => Fatalf err
  | inl opts0 =>
      let opts1 := opts0 ++ [WithTimeout defaultTimeout] in
      let opts2 := opts1 ++ [WithBlock] in
      let opts3 := opts2 ++ [WithInsecure] in
      Dialed peerAddress opts3 (grpcDial peerAddress opts3)
  end.

Definition serverNameOf (c : TransportAuthenticator) : string :=
  match c with
  | NewClientTLSFromFile _ sn => sn
  | NewClientTLSFromCert sn => sn
  end.

Definition isCredentials (o : DialOption) : bool :=
  match o with WithTransportCredentials _ => true | _ => false end.

(** A configuration given by its three TLS settings. *)
Definition tlsConfig (enabled : bool) (host cert : string) : Viper :=
  {| GetBool := fun k => if String.eqb k "peer.tls.enabled" then enabled else false;
     GetString := fun k =>
       if String.eqb k "peer.tls.server-host-override" then host
       else if String.eqb k "peer.tls.cert.file" then cert
       else "" |}.

(** A file system on which only [good] can be read as a certificate. *)
Definition onlyCert (good : string) (file : string) : option error :=
  if String.eqb file good then None
  else Some (Errorf ("open " ++ file ++ ": no such file or directory")).

Definition dialOk (target : string) (opts : list DialOption) : option error :=
  None.

(** ** Projections of a trace *)

(** The results the stream's [Recv] returned, in order. *)
Fixpoint recvResults (tr : list Call) : list RecvResult :=
  match tr with
  | [] => []
  | EvStreamRecv r :: tl => r :: recvResults tl
  | _ :: tl => recvResults tl
  end.

(** The messages among a list of receive results, in order. *)
Fixpoint messagesOf (rs : list RecvResult) : list EventHubMessage :=
  match rs with
  | [] => []
  | RecvMsg m :: tl => m :: messagesOf tl
  | RecvErr _ :: tl => messagesOf tl
  end.

(** The messages handed to the subscriber's [Recv], in order. *)
Fixpoint deliveredMsgs (tr : list Call) : list EventHubMessage :=
  match tr with
  | [] => []
  | EvRecv m _ :: tl => m :: deliveredMsgs tl
  | _ :: tl => deliveredMsgs tl
  end.

Definition isCloseSend (e : Call) : bool :=
  match e with EvCloseSend => true | _ => false end.

Definition isSend (e : Call) : bool :=
  match e with EvSend _ _ => true | _ => false end.

(** A peer on which [Send] fails. *)
Definition deafPeer : Stream :=
  {| sendErr := Some (Errorf "transport is closing"); closeErr := None;
     inbound := [RecvMsg (ack blockEvents)]; outbound := []; halfClosed := 0 |}.

(** A network that cannot be dialled, and one on which [Chat] fails. *)
Definition unreachable : Network :=
  {| dial := fun _ => Some (Errorf "context deadline exceeded");
     chat := inl ackPeer |}.

Definition noChat : Network :=
  {| dial := fun _ => None; chat := inr (Errorf "rpc error: code = 12") |}.

(** ** What [register] can find in [err] *)




(** * Properties *)

(** ** The receive loop *)

Section ReceiveLoopFacts.

Context {A : Type} `{EventAdapter A}.

Lemma emit_trace (ev : list Call) (r : LoopResult A) :
  loopTrace (emit ev r) = ev ++ loopTrace r.
Proof. reflexivity. Qed.

Lemma emit_outcome (ev : list Call) (r : LoopResult A) :
  loopOutcome (emit ev r) = loopOutcome r.
Proof. reflexivity. Qed.

(** A loop that has returned ran the deferred half-close last; a loop that is
    blocked has not. *)
Lemma processEventsOn_returned (ad : option A) (s : Stream) (e : option error) :
  loopOutcome (recvLoop ad (inbound s)) = Returned e ->
  procTrace (processEventsOn ad s)
    = loopTrace (recvLoop ad (inbound s)) ++ [EvCloseSend]
  /\ procOutcome (processEventsOn ad s) = Returned e
  /\ procAdapter (processEventsOn ad s) = loopAdapter (recvLoop ad (inbound s)).
Proof.
  intros Hout. unfold processEventsOn. rewrite Hout. cbn. auto.
Qed.

Lemma processEventsOn_trace_prefix (ad : option A) (s : Stream) (c : Call) :
  c <> EvCloseSend ->
  In c (procTrace (processEventsOn ad s)) ->
  In c (loopTrace (recvLoop ad (inbound s))).
Proof.
  intros Hc. unfold processEventsOn.
  destruct (loopOutcome (recvLoop ad (inbound s))); cbn; auto.
  intros Hin. apply in_app_or in Hin. destruct Hin as [Hin | [Heq | []]]; auto.
  congruence.
Qed.

(** The loop never returns without a reason: a receive error or a failing
    handler ends it; otherwise it is still waiting. *)
Lemma recvLoop_not_panicked (inb : list RecvResult) (ad : option A) :
  loopOutcome (recvLoop ad inb) <> Panicked.
Proof.
  revert ad. induction inb as [| r rest IH]; intros ad; cbn; [discriminate |].
  destruct r as [m | [| msg]], ad as [a |]; cbn; try discriminate; auto.
  destruct (Recv a m) as [a' [e |]]; cbn; [discriminate | apply IH].
Qed.

(** What the loop does once the stream's receive reports an error. *)
Lemma recvLoop_recv_error (inb : list RecvResult) (a : A) (e : error) :
  In (EvStreamRecv (RecvErr e)) (loopTrace (recvLoop (Some a) inb)) ->
  exists (pre : list Call) (d : option error),
    loopTrace (recvLoop (Some a) inb)
      = pre ++ [EvStreamRecv (RecvErr e); EvDone d]
    /\ filter isDone pre = []
    /\ loopOutcome (recvLoop (Some a) inb) = Returned d
    /\ (e = io_EOF -> d = None)
    /\ (e <> io_EOF -> d = Some e).
Proof.
  revert a. induction inb as [| r rest IH]; intros a; cbn.
  - intros [].
  - destruct r as [m | [| msg]]; cbn.
    + destruct (Recv a m) as [a' [e' |]]; cbn.
      * intros [Hin | [Hin | []]]; discriminate.
      * intros [Hin | [Hin | Hin]]; try discriminate.
        destruct (IH a' Hin) as (pre & d & Htr & Hpre & Hout & Heof & Herr).
        exists (EvStreamRecv (RecvMsg m) :: EvRecv m None :: pre), d.
        rewrite Htr. cbn. rewrite Hpre. auto.
    + intros [Hin | [Hin | []]]; try discriminate.
      injection Hin as <-. exists [], None. cbn.
      repeat split; auto. intros Hne. congruence.
    + intros [Hin | [Hin | []]]; try discriminate.
      injection Hin as <-. exists [], (Some (Errorf msg)). cbn.
      repeat split; auto. discriminate.
Qed.

(** What the loop does once a handler call has reported an error. *)
Lemma recvLoop_handler_error (inb : list RecvResult) (ad : option A)
  (m : EventHubMessage) (e : error) :
  In (EvRecv m (Some e)) (loopTrace (recvLoop ad inb)) ->
  exists pre : list Call,
    loopTrace (recvLoop ad inb)
      = pre ++ [EvStreamRecv (RecvMsg m); EvRecv m (Some e)]
    /\ filter isDone pre = []
    /\ loopOutcome (recvLoop ad inb) = Returned (Some e).
Proof.
  revert ad. induction inb as [| r rest IH]; intros ad; cbn.
  - intros [].
  - destruct r as [m' | [| msg]], ad as [a |]; cbn;
      try (intros [Hin | [Hin | []]]; discriminate);
      try (intros [Hin | []]; discriminate).
    + destruct (Recv a m') as [a' [e' |]]; cbn.
      * intros [Hin | [Hin | []]]; try discriminate.
        injection Hin as <- <-. exists []. auto.
      * intros [Hin | [Hin | Hin]]; try discriminate.
        destruct (IH _ Hin) as (pre & Htr & Hpre & Hout).
        exists (EvStreamRecv (RecvMsg m') :: EvRecv m' None :: pre).
        rewrite Htr. cbn. auto.
    + intros [Hin | Hin]; try discriminate.
      destruct (IH _ Hin) as (pre & Htr & Hpre & Hout).
      exists (EvStreamRecv (RecvMsg m') :: pre).
      rewrite Htr. cbn. auto.
Qed.





(** Without a subscriber the loop only ever calls the stream. *)
Lemma recvLoop_nil_adapter (inb : list RecvResult) :
  filter isAdapterCall (loopTrace (recvLoop (@None A) inb)) = []
  /\ loopAdapter (recvLoop (@None A) inb) = None.
Proof.
  induction inb as [| r rest [IHt IHa]]; cbn; auto.
  destruct r as [m | [| msg]]; cbn; auto.
Qed.

Lemma recvLoop_nil_adapter_drain (ms : list EventHubMessage)
  (tl : list RecvResult) :
  recvLoop (@None A) (map RecvMsg ms ++ tl)
    = emit (map (fun m => EvStreamRecv (RecvMsg m)) ms) (recvLoop None tl).
Proof.
  induction ms as [| m ms IH]; cbn.
  - destruct (recvLoop None tl); reflexivity.
  - rewrite IH. reflexivity.
Qed.

End ReceiveLoopFacts.

Section ReceiveLoopClaims.

Context {A : Type} `{EventAdapter A}.

(** C2.  In every run of the receive loop with a subscriber: as soon as
    [stream.Recv()] reports an error [e], the loop calls [Done] and returns;
    [Done] gets nil and the loop returns nil when [e] is [io.EOF], and both
    get [e] itself otherwise.  That [Done] is the only one of the run, and
    after it the loop makes no further [Recv] call of either kind: only the
    deferred half-close follows. *)
Theorem processEvents_recv_error_notifies_once
  (ec : OBCEventClient A) (a : A) (r : ProcessResult A) (e : error) :
  adapter ec = Some a ->
  processEvents ec = Some r ->
  In (EvStreamRecv (RecvErr e)) (procTrace r) ->
  exists (pre : list Call) (d : option error),
    procTrace r = pre ++ [EvStreamRecv (RecvErr e); EvDone d; EvCloseSend]
    /\ filter isDone (procTrace r) = [EvDone d]
    /\ procOutcome r = Returned d
    /\ (e = io_EOF -> d = None)
    /\ (e <> io_EOF -> d = Some e).
Proof.
  unfold processEvents. intros Had Hproc Hin.
  destruct (stream ec) as [s |]; [| discriminate].
  injection Hproc as <-. rewrite Had in *.
  apply processEventsOn_trace_prefix in Hin; [| discriminate].
  destruct (recvLoop_recv_error _ _ _ Hin)
    as (pre & d & Htr & Hpre & Hout & Heof & Herr).
  destruct (processEventsOn_returned _ _ Hout) as (Hp & Ho & _).
  exists pre, d. rewrite Hp, Htr, <- app_assoc. cbn.
  repeat split; auto.
  rewrite filter_app, Hpre. reflexivity.
Qed.

(** C6.  In every run of the receive loop: as soon as a call of the
    subscriber's [Recv] on a received message returns an error [e], the loop
    returns [e]; it pulls no further frame and it does not call [Done], on
    this path or before: the run contains no [Done] at all. *)
Theorem processEvents_handler_error_aborts
  (ec : OBCEventClient A) (r : ProcessResult A) (m : EventHubMessage)
  (e : error) :
  processEvents ec = Some r ->
  In (EvRecv m (Some e)) (procTrace r) ->
  exists pre : list Call,
    procTrace r = pre ++ [EvStreamRecv (RecvMsg m); EvRecv m (Some e); EvCloseSend]
    /\ filter isDone (procTrace r) = []
    /\ procOutcome r = Returned (Some e).
Proof.
  unfold processEvents. intros Hproc Hin.
  destruct (stream ec) as [s |]; [| discriminate].
  injection Hproc as <-.
  apply processEventsOn_trace_prefix in Hin; [| discriminate].
  destruct (recvLoop_handler_error _ _ _ _ Hin) as (pre & Htr & Hpre & Hout).
  destruct (processEventsOn_returned _ _ Hout) as (Hp & Ho & _).
  exists pre. rewrite Hp, Htr, <- app_assoc. cbn.
  repeat split; auto.
  rewrite filter_app, Hpre. reflexivity.
Qed.


(** C10.  With a nil adapter the loop calls no subscriber method at all,
    neither [Recv] nor [Done]: it drops every message it receives, and at the
    first receive error it returns, nil for [io.EOF] and the error itself
    otherwise, having made only stream calls.  While the stream holds nothing
    but messages the loop keeps receiving. *)
Theorem processEvents_nil_adapter_drains
  (ec : OBCEventClient A) (s : Stream) (r : ProcessResult A) :
  stream ec = Some s ->
  adapter ec = None ->
  processEvents ec = Some r ->
  filter isAdapterCall (procTrace r) = []
  /\ procAdapter r = None
  /\ (forall (ms : list EventHubMessage) (e : error) (tl : list RecvResult),
        inbound s = map RecvMsg ms ++ RecvErr e :: tl ->
        procTrace r
          = map (fun m => EvStreamRecv (RecvMsg m)) ms
              ++ [EvStreamRecv (RecvErr e); EvCloseSend]
        /\ procOutcome r
           = Returned (match e with io_EOF => None | Errorf _ => Some e end))
  /\ (forall ms : list EventHubMessage,
        inbound s = map RecvMsg ms ->
        procTrace r = map (fun m => EvStreamRecv (RecvMsg m)) ms
        /\ procOutcome r = Pending).
Proof.
  unfold processEvents. intros Hs Had Hproc.
  rewrite Hs in Hproc. injection Hproc as <-. rewrite Had.
  destruct (recvLoop_nil_adapter (A := A) (inbound s)) as [Hcalls Hnone].
  split; [| split; [| split]].
  - unfold processEventsOn.
    destruct (loopOutcome (recvLoop None (inbound s))); cbn; auto.
    rewrite filter_app, Hcalls. reflexivity.
  - unfold processEventsOn.
    destruct (loopOutcome (recvLoop None (inbound s))); cbn; auto.
  - intros ms e tl Hinb.
    assert (Hout : loopOutcome (recvLoop (@None A) (inbound s))
                   = Returned (match e with io_EOF => None | Errorf _ => Some e end)).
    { rewrite Hinb, recvLoop_nil_adapter_drain. destruct e; reflexivity. }
    destruct (processEventsOn_returned _ _ Hout) as (Hp & Ho & _).
    split; [| exact Ho].
    rewrite Hp, Hinb, recvLoop_nil_adapter_drain, emit_trace, <- app_assoc.
    destruct e; reflexivity.
  - intros ms Hinb. unfold processEventsOn. rewrite Hinb.
    rewrite <- (app_nil_r (map RecvMsg ms)), recvLoop_nil_adapter_drain.
    cbn. now rewrite app_nil_r.
Qed.

End ReceiveLoopClaims.

(** ** The handshake *)

(** Case analysis on the case [select] has taken and on where the caller
    stands, closing each case from the invariant at hand. *)
Ltac by_cases t m :=
  destruct t as [[|] |]; try destruct m; cbn in *; intuition (try congruence).

Section HandshakeFacts.

Variable st0 : Stream.
Variable emsg : EventHubMessage.

Lemma regInv_spawned : regInv st0 emsg (spawned st0 emsg).
Proof.
  unfold regInv, helperInv, closedInv, selectInv, exitInv. cbn. intuition.
Qed.

Lemma regInv_step (l : Label) (s : RegState) :
  regInv st0 emsg s -> regInv st0 emsg (step l s).
Proof.
  unfold regInv, helperInv, closedInv, selectInv, exitInv.
  destruct s as [e m h f c st t tr]. cbn.
  intros (Hh & Hc & Hs & Hx).
  destruct l; cbn.
  - (* the caller moves *)
    destruct m; cbn; auto; by_cases t tt.
  - (* the helper moves *)
    destruct h as [| | [m' | inerr] | | |]; cbn in *; auto.
    + destruct Hh as [-> ->]. unfold ChatClient.Recv.
      destruct (inbound st0) as [| r rest] eqn:Hinb; cbn; by_cases t m.
    + destruct (inbound st0) as [| r rest]; [contradiction |].
      destruct Hh as (-> & -> & <-). cbn in *.
      destruct (confirmationError m') as [e' |] eqn:Hce; cbn; by_cases t m.
    + destruct (inbound st0) as [| r rest]; [contradiction |].
      destruct Hh as (-> & -> & <-). cbn in *. by_cases t m.
    + destruct (inbound st0) as [| r rest]; [contradiction |]. by_cases t m.
  - (* the timer *)
    destruct m; cbn; auto; by_cases t tt.
  - (* select takes regChan *)
    destruct m; cbn; auto.
    destruct h as [| | r | | |]; cbn in *; subst c; cbn; auto;
      destruct (inbound st0) as [| [m' | e'] rest]; try contradiction;
      destruct t as [[|] |]; cbn in *; intuition congruence.
  - (* select takes the timeout *)
    destruct m; cbn; auto.
    destruct f; cbn; auto; by_cases t tt;
      destruct h; cbn in *; auto;
      destruct (inbound st0) as [| [m' | e'] rest]; intuition congruence.
Qed.

Lemma regInv_run (sched : list Label) (s : RegState) :
  regInv st0 emsg s -> regInv st0 emsg (run sched s).
Proof.
  revert s. induction sched as [| l rest IH]; intros s Hs; cbn; auto.
  apply IH, regInv_step, Hs.
Qed.

(** With the caller gone and the helper at its send, nobody moves any more,
    whatever the schedule; only the timer may still fire. *)
Lemma helperStuck_run (sched : list Label) (s : RegState) :
  helperStuck s = true ->
  hpc (run sched s) = HSend
  /\ mpc (run sched s) = mpc s
  /\ regChanClosed (run sched s) = regChanClosed s
  /\ err (run sched s) = err s.
Proof.
  revert s. induction sched as [| l rest IH]; intros s Hs.
  - cbn. unfold helperStuck in Hs.
    destruct (hpc s); try discriminate. auto.
  - cbn [run].
    assert (Hstep : helperStuck (step l s) = true /\ mpc (step l s) = mpc s
                    /\ regChanClosed (step l s) = regChanClosed s
                    /\ err (step l s) = err s).
    { unfold helperStuck in *.
      destruct s as [e m h f c st t tr]; cbn in *.
      destruct h; try discriminate. destruct m; try discriminate.
      destruct l; cbn; auto. }
    destruct Hstep as (Hs' & Hm & Hc & He).
    destruct (IH _ Hs') as (H1 & H2 & H3 & H4).
    rewrite H1, H2, H3, H4. auto.
Qed.

(** The caller is never blocked for good: wherever it stands, letting the
    timer fire brings it to its [return]. *)
Lemma caller_can_always_return (s : RegState) :
  exists r : option error,
    mpc (run [StepMain; TimerFires; SelectTimeout; StepMain; StepMain] s)
      = MReturned r.
Proof.
  destruct s as [e m h f c st t tr].
  destruct m; cbn; eauto.
Qed.

End HandshakeFacts.

Section RegisterFacts.

Variable s : Stream.
Variable ies : option (list InterestedEvent).
Variable sched : list Label.

Lemma register_send_failed (e : error) :
  sendErr s = Some e ->
  mpc (register s ies sched) = MReturned (Some e)
  /\ regTrace (register s ies sched) = [EvSend (registerRequest ies) (Some e)]
  /\ hpc (register s ies sched) = HNone.
Proof.
  intros Hsend. unfold register, ChatClient.Send. rewrite Hsend. cbn. auto.
Qed.

Lemma register_inv :
  sendErr s = None ->
  regInv (fst (ChatClient.Send s (registerRequest ies))) (registerRequest ies)
         (register s ies sched).
Proof.
  intros Hsend. unfold register, ChatClient.Send. rewrite Hsend. cbn [fst].
  apply regInv_run, regInv_spawned.
Qed.

(** When [select] has taken [regChan], [register] returns what the helper
    left in [err]. *)
Lemma register_regChan_result (r : option error) :
  sendErr s = None ->
  taken (register s ies sched) = Some CaseRegChan ->
  mpc (register s ies sched) = MReturned r ->
  r = verdict (inbound s).
Proof.
  intros Hsend Htaken Hret.
  destruct (register_inv Hsend) as (_ & _ & Hsel & _).
  unfold selectInv in Hsel. rewrite Htaken in Hsel.
  destruct Hsel as (_ & _ & [Hm | Hm]); [congruence |].
  rewrite Hret in Hm. now injection Hm.
Qed.

(** When [select] has taken the timeout case and the first result of [Recv]
    is a frame, the helper has not finished and [regChan] is open. *)
Lemma register_timeout_helper_unfinished (m : EventHubMessage)
  (rest : list RecvResult) :
  sendErr s = None ->
  inbound s = RecvMsg m :: rest ->
  taken (register s ies sched) = Some CaseTimeout ->
  hpc (register s ies sched) <> HClose
  /\ hpc (register s ies sched) <> HExit
  /\ regChanClosed (register s ies sched) = false.
Proof.
  intros Hsend Hinb Htaken.
  destruct (register_inv Hsend) as (_ & Hc & _ & Hx).
  unfold closedInv in Hc. unfold exitInv in Hx.
  change (inbound (fst (ChatClient.Send s (registerRequest ies))))
    with (inbound s) in Hx.
  rewrite Hinb, Htaken in Hx. rewrite Hc.
  destruct (hpc (register s ies sched)); repeat split; congruence.
Qed.

End RegisterFacts.


Section HandshakeClaims.

Variable s : Stream.
Variable ies : option (list InterestedEvent).
Variable sched : list Label.

(** C5.  When the request was sent, the first result of [Recv] is a frame
    [m] and [select] takes [regChan] (the frame came in time), [register]
    returns according to the variant of [m] alone: nil for a registration
    acknowledgement, and one fixed error for each of the other three kinds
    (a transaction event, an unset variant, any other variant).  The four
    results are pairwise different, so exactly one of the four outcomes is
    produced. *)
Theorem register_classifies_first_frame
  (m : EventHubMessage) (rest : list RecvResult) (r : option error) :
  sendErr s = None ->
  inbound s = RecvMsg m :: rest ->
  taken (register s ies sched) = Some CaseRegChan ->
  mpc (register s ies sched) = MReturned r ->
  match Event m with
  | Some (EventHubMessage_RegisterEvent _) => r = None
  | Some (EventHubMessage_TransactionEvent _) =>
      r = Some (Errorf "invalid Transaction object for register")
  | None => r = Some (Errorf "invalid nil object for register")
  | Some (EventHubMessage_Other _) =>
      r = Some (Errorf "invalid registration object")
  end.
Proof.
  intros Hsend Hinb Htaken Hret.
  rewrite (@register_regChan_result s ies sched r Hsend Htaken Hret), Hinb.
  cbn. unfold confirmationError.
  destruct (Event m) as [[| |] |]; reflexivity.
Qed.

(** C9.  A registration acknowledgement received in time as the first frame
    makes [register] return nil whatever it carries: the acknowledged
    interest set [acked] and the interest set [ies] that was sent are
    unrelated, and nothing in the acknowledgement is looked at. *)
Theorem register_accepts_any_acknowledgement
  (acked : RegisterEvent) (rest : list RecvResult) (r : option error) :
  sendErr s = None ->
  inbound s
    = RecvMsg {| Event := Some (EventHubMessage_RegisterEvent acked) |} :: rest ->
  taken (register s ies sched) = Some CaseRegChan ->
  mpc (register s ies sched) = MReturned r ->
  r = None /\ regOutcome (register s ies sched) = Returned None.
Proof.
  intros Hsend Hinb Htaken Hret.
  assert (Hr : r = None).
  { rewrite (@register_regChan_result s ies sched r Hsend Htaken Hret), Hinb.
    reflexivity. }
  split; [exact Hr |]. unfold regOutcome. rewrite Hret, Hr. reflexivity.
Qed.

(** When [Recv] fails in time, [register] returns that receive error. *)
Lemma register_returns_receive_error
  (e : error) (rest : list RecvResult) (r : option error) :
  sendErr s = None ->
  inbound s = RecvErr e :: rest ->
  taken (register s ies sched) = Some CaseRegChan ->
  mpc (register s ies sched) = MReturned r ->
  r = Some e.
Proof.
  intros Hsend Hinb Htaken Hret.
  rewrite (@register_regChan_result s ies sched r Hsend Htaken Hret), Hinb.
  reflexivity.
Qed.

(** However the handshake goes, a [register] that has returned through the
    timeout case has returned an error. *)
Lemma register_timeout_is_error (r : option error) :
  sendErr s = None ->
  taken (register s ies sched) = Some CaseTimeout ->
  mpc (register s ies sched) = MReturned r ->
  r <> None.
Proof.
  intros Hsend Htaken Hret.
  destruct (@register_inv s ies sched Hsend) as (_ & _ & Hsel & _).
  unfold selectInv in Hsel. rewrite Htaken, Hret in Hsel. tauto.
Qed.


End HandshakeClaims.

(** ** Start and Stop *)

Section LifecycleClaims.

Context {A : Type} `{EventAdapter A}.

(** [Start] dials before anything else: the dial is the first call of every
    run, and a failed dial ends [Start] before the subscriber is asked. *)
Lemma Start_dials_first (ec : OBCEventClient A) (net : Network)
  (sched : list Label) :
  exists tl : list Call,
    startTrace (Start ec net sched) = EvDial (peerAddress ec) :: tl.
Proof.
  unfold Start.
  destruct (dial net (peerAddress ec)); [cbn; eauto |].
  destruct (adapter ec) as [a |]; [| cbn; eauto].
  destruct (GetInterestedEvents a) as [a1 [l |]]; [| cbn; eauto].
  destruct (chat net) as [st | e]; [| cbn; eauto].
  destruct (mpc (register st (Some l) sched)) as [| | | | [e |]]; cbn; eauto.
Qed.

Lemma Start_dial_failure (ec : OBCEventClient A) (net : Network)
  (sched : list Label) (e : error) :
  dial net (peerAddress ec) = Some e ->
  Start ec net sched
    = {| startOutcome := Returned (Some (connError (peerAddress ec)));
         startClient := ec; startTrace := [EvDial (peerAddress ec)];
         loopStarted := false; handshake := None |}.
Proof.
  intros Hd. unfold Start. rewrite Hd. reflexivity.
Qed.

(** With a nil adapter [Start] dials and then panics on
    [ec.adapter.GetInterestedEvents()]. *)
Lemma Start_nil_adapter_panics (ec : OBCEventClient A) (net : Network)
  (sched : list Label) :
  dial net (peerAddress ec) = None ->
  adapter ec = None ->
  startOutcome (Start ec net sched) = Panicked
  /\ startTrace (Start ec net sched) = [EvDial (peerAddress ec)].
Proof.
  intros Hd Ha. unfold Start. rewrite Hd, Ha. auto.
Qed.

(** C1, as the code has it.  [Start] with a subscriber first dials the
    transport.  When the dial succeeds and [GetInterestedEvents()] returns
    a nil slice, [Start] fails at once with the error "no interested events":
    the dial is the only network call before the failure, no stream is opened,
    no frame is sent or received, no loop is started, and the client's stream
    handle is left as it was. *)
Theorem Start_rejects_absent_interests
  (ec : OBCEventClient A) (net : Network) (sched : list Label) (a : A) :
  adapter ec = Some a ->
  dial net (peerAddress ec) = None ->
  snd (GetInterestedEvents a) = None ->
  startOutcome (Start ec net sched)
    = Returned (Some (Errorf "no interested events"))
  /\ startTrace (Start ec net sched)
     = [EvDial (peerAddress ec); EvGetInterestedEvents]
  /\ filter isStreamActivity (startTrace (Start ec net sched)) = []
  /\ loopStarted (Start ec net sched) = false
  /\ stream (startClient (Start ec net sched)) = stream ec.
Proof.
  intros Ha Hd Hies. unfold Start. rewrite Hd, Ha.
  destruct (GetInterestedEvents a) as [a1 l]. cbn in Hies. subst l.
  cbn. auto.
Qed.

(** Whatever the helper does meanwhile, a [Start] whose handshake left its
    [select] by the timeout case returns an error, starts no loop and calls
    no [Done]. *)
Lemma Start_timeout_never_starts_loop (ec : OBCEventClient A) (net : Network)
  (sched : list Label) (st : RegState) (r : option error) :
  handshake (Start ec net sched) = Some st ->
  taken st = Some CaseTimeout ->
  startOutcome (Start ec net sched) = Returned r ->
  r <> None
  /\ loopStarted (Start ec net sched) = false
  /\ filter isGo (startTrace (Start ec net sched)) = []
  /\ filter isDone (startTrace (Start ec net sched)) = [].
Proof.
  unfold Start.
  destruct (dial net (peerAddress ec)); [discriminate |].
  destruct (adapter ec) as [a |]; [| discriminate].
  destruct (GetInterestedEvents a) as [a1 [l |]]; [| discriminate].
  destruct (chat net) as [s0 | e]; [| discriminate].
  destruct (sendErr s0) as [e |] eqn:Hsend.
  { unfold register, ChatClient.Send. rewrite Hsend. cbn.
    intros [= <-]. discriminate. }
  set (reg := register s0 (Some l) sched).
  destruct (@register_inv s0 (Some l) sched Hsend) as (Hh & _ & _).
  fold reg in Hh. unfold helperInv in Hh.
  change (inbound (fst (ChatClient.Send s0 (registerRequest (Some l)))))
    with (inbound s0) in Hh.
  assert (Htr : filter isGo (regTrace reg) = []
                /\ filter isDone (regTrace reg) = []).
  { destruct (hpc reg); try contradiction;
      try (destruct Hh as [_ ->]; auto);
      destruct (inbound s0); try contradiction;
      destruct Hh as (_ & -> & _); auto. }
  destruct Htr as [Hgo Hdone].
  destruct (mpc reg) as [| | | | [e |]] eqn:Hm; cbn [handshake startOutcome];
    intros [= <-] Htaken Hout; try discriminate.
  - injection Hout as <-. cbn [loopStarted startTrace].
    rewrite !filter_app, Hgo, Hdone. cbn. repeat split; auto. discriminate.
  - exfalso.
    now apply (@register_timeout_is_error s0 (Some l) sched None Hsend Htaken).
Qed.

(** [Start] returns nil only after a handshake that returned nil, and then,
    and only then, it starts the loop. *)
Lemma Start_loop_iff_success (ec : OBCEventClient A) (net : Network)
  (sched : list Label) :
  loopStarted (Start ec net sched) = true
  <-> startOutcome (Start ec net sched) = Returned None.
Proof.
  unfold Start.
  destruct (dial net (peerAddress ec)); [cbn; split; discriminate |].
  destruct (adapter ec) as [a |]; [| cbn; split; discriminate].
  destruct (GetInterestedEvents a) as [a1 [l |]]; [| cbn; split; discriminate].
  destruct (chat net) as [st | e]; [| cbn; split; discriminate].
  destruct (mpc (register st (Some l) sched)) as [| | | | [e |]]; cbn;
    split; auto; discriminate.
Qed.

(** A [Start] that never got to the handshake leaves a client without a
    stream, if it had none before. *)
Lemma Start_without_handshake_leaves_no_stream (ec : OBCEventClient A)
  (net : Network) (sched : list Label) :
  stream ec = None ->
  handshake (Start ec net sched) = None ->
  stream (startClient (Start ec net sched)) = None.
Proof.
  unfold Start. intros Hs.
  destruct (dial net (peerAddress ec)); [auto |].
  destruct (adapter ec) as [a |]; [| auto].
  destruct (GetInterestedEvents a) as [a1 [l |]]; [| auto].
  destruct (chat net) as [st | e]; [| auto].
  destruct (mpc (register st (Some l) sched)) as [| | | | [e |]]; cbn;
    discriminate.
Qed.

(** [Stop] on a client whose stream handle is nil panics; with a stream it
    returns what [CloseSend] returns. *)
Lemma Stop_nil_stream (ec : OBCEventClient A) :
  stream ec = None -> fst (Stop ec) = Panicked.
Proof.
  intros Hs. unfold Stop. rewrite Hs. reflexivity.
Qed.

Lemma Stop_with_stream (ec : OBCEventClient A) (st : Stream) :
  stream ec = Some st -> fst (Stop ec) = Returned (closeErr st).
Proof.
  intros Hs. unfold Stop. rewrite Hs. reflexivity.
Qed.

(** C3, what the code does.  On a client that was never started, and on a
    client whose [Start] ended before the handshake (failed dial, no interest
    set, failed [Chat]), [Stop] does not return an error: the call
    [ec.stream.CloseSend()] on the nil stream handle panics. *)
Theorem Stop_without_stream_panics (addr : string) (ad : option A)
  (net : Network) (sched : list Label) :
  fst (Stop (NewOBCEventHubClient addr ad)) = Panicked
  /\ (handshake (Start (NewOBCEventHubClient addr ad) net sched) = None ->
      fst (Stop (startClient (Start (NewOBCEventHubClient addr ad) net sched)))
        = Panicked).
Proof.
  split; [reflexivity |].
  intros Hh. apply Stop_nil_stream.
  now apply Start_without_handshake_leaves_no_stream.
Qed.

End LifecycleClaims.

(** ** The claims on concrete runs *)

Lemma processEvents_recv_error_notifies_once_witness :
  exists (pre : list Call) (d : option error),
    procTrace (processEventsOn (Some accepting) brokenPeer)
      = pre ++ [EvStreamRecv (RecvErr (Errorf "transport is closing"));
                EvDone d; EvCloseSend]
    /\ filter isDone (procTrace (processEventsOn (Some accepting) brokenPeer))
       = [EvDone d]
    /\ procOutcome (processEventsOn (Some accepting) brokenPeer) = Returned d
    /\ (Errorf "transport is closing" = io_EOF -> d = None)
    /\ (Errorf "transport is closing" <> io_EOF
        -> d = Some (Errorf "transport is closing")).
Proof.
  apply (@processEvents_recv_error_notifies_once Recorder _
           (streaming (Some accepting) brokenPeer) accepting).
  - reflexivity.
  - reflexivity.
  - cbn. tauto.
Defined.

Lemma processEvents_handler_error_aborts_witness :
  exists pre : list Call,
    procTrace (processEventsOn (Some rejectingB) closingPeer)
      = pre ++ [EvStreamRecv (RecvMsg (txEvent "B"));
                EvRecv (txEvent "B") (Some (Errorf "rejected B")); EvCloseSend]
    /\ filter isDone (procTrace (processEventsOn (Some rejectingB) closingPeer))
       = []
    /\ procOutcome (processEventsOn (Some rejectingB) closingPeer)
       = Returned (Some (Errorf "rejected B")).
Proof.
  apply (@processEvents_handler_error_aborts Recorder _
           (streaming (Some rejectingB) closingPeer)).
  - reflexivity.
  - cbn. tauto.
Defined.


Lemma processEvents_nil_adapter_drains_witness :
  filter isAdapterCall (procTrace (processEventsOn (@None Recorder) closingPeer))
    = []
  /\ procTrace (processEventsOn (@None Recorder) closingPeer)
     = [EvStreamRecv (RecvMsg (txEvent "A")); EvStreamRecv (RecvMsg (txEvent "B"));
        EvStreamRecv (RecvErr io_EOF); EvCloseSend]
  /\ procOutcome (processEventsOn (@None Recorder) closingPeer) = Returned None.
Proof.
  destruct (@processEvents_nil_adapter_drains Recorder _
              (streaming None closingPeer) closingPeer
              (processEventsOn None closingPeer))
    as (Hcalls & _ & Hdrain & _).
  - reflexivity.
  - reflexivity.
  - reflexivity.
  - destruct (Hdrain [txEvent "A"; txEvent "B"] io_EOF []) as [Htr Hout].
    + reflexivity.
    + split; [exact Hcalls | split; [exact Htr | exact Hout]].
Defined.

Lemma register_classifies_first_frame_witness :
  taken (register eventFirstPeer blockEvents promptSchedule) = Some CaseRegChan
  /\ regOutcome (register eventFirstPeer blockEvents promptSchedule)
     = Returned (Some (Errorf "invalid Transaction object for register"))
  /\ Some (Errorf "invalid Transaction object for register")
     = Some (Errorf "invalid Transaction object for register").
Proof.
  split; [reflexivity | split; [reflexivity |]].
  apply (@register_classifies_first_frame eventFirstPeer blockEvents
           promptSchedule (txEvent "A") []); reflexivity.
Defined.

Lemma register_accepts_any_acknowledgement_witness :
  taken (register strangeAckPeer blockEvents promptSchedule) = Some CaseRegChan
  /\ (@None error = None
      /\ regOutcome (register strangeAckPeer blockEvents promptSchedule)
         = Returned None).
Proof.
  split; [reflexivity |].
  apply (@register_accepts_any_acknowledgement strangeAckPeer blockEvents
           promptSchedule
           {| Events := Some [{| EventType := "chaincode-events" |}] |} []);
    reflexivity.
Defined.

(** C1 fails as stated.  The subscriber of [idleClient] returns no interest
    set, and [Start] does fail with the configuration error; but it has
    dialled the peer before it asked the subscriber, so the failure is not
    free of network activity. *)
Lemma Start_dials_before_checking_interests :
  snd (GetInterestedEvents (recorder None None)) = None
  /\ startOutcome (Start idleClient (reachable ackPeer) [])
     = Returned (Some (Errorf "no interested events"))
  /\ startTrace (Start idleClient (reachable ackPeer) [])
     = [EvDial peerAddr; EvGetInterestedEvents]
  /\ filter isNetwork (startTrace (Start idleClient (reachable ackPeer) []))
     = [EvDial peerAddr].
Proof.
  repeat split.
Qed.

Lemma Start_rejects_absent_interests_witness :
  startOutcome (Start idleClient (reachable ackPeer) promptSchedule)
    = Returned (Some (Errorf "no interested events"))
  /\ filter isStreamActivity
       (startTrace (Start idleClient (reachable ackPeer) promptSchedule))
     = [].
Proof.
  destruct (@Start_rejects_absent_interests Recorder _ idleClient
              (reachable ackPeer) promptSchedule (recorder None None))
    as (Hout & _ & Hquiet & _).
  - reflexivity.
  - reflexivity.
  - reflexivity.
  - split; [exact Hout | exact Hquiet].
Defined.

(** An interest set that is empty without being nil passes the check of
    [Start]: the stream is opened and an empty registration is sent. *)
Lemma Start_accepts_empty_interests :
  startOutcome (Start emptyClient (reachable ackPeer) promptSchedule)
    = Returned None
  /\ filter isStreamActivity
       (startTrace (Start emptyClient (reachable ackPeer) promptSchedule))
     = [EvChat; EvSend (registerRequest (Some [])) None;
        EvStreamRecv (RecvMsg (ack blockEvents))].
Proof.
  split; reflexivity.
Qed.

Lemma Stop_without_stream_panics_witness :
  fst (Stop blockClient) = Panicked
  /\ handshake (Start idleClient (reachable ackPeer) []) = None
  /\ fst (Stop (startClient (Start idleClient (reachable ackPeer) [])))
     = Panicked.
Proof.
  destruct (@Stop_without_stream_panics Recorder _ peerAddr
              (Some (recorder None None)) (reachable ackPeer) [])
    as [Hfresh Hfailed].
  split; [reflexivity | split; [reflexivity |]].
  apply Hfailed. reflexivity.
Defined.

(** After a handshake, failed or not, the stream handle is set and [Stop]
    returns what [CloseSend] returns: nil here, although [Start] failed. *)
Lemma Stop_after_failed_handshake_succeeds :
  startOutcome (Start blockClient (reachable silentPeer) timeoutSchedule)
    = Returned (Some errTimeout)
  /\ fst (Stop (startClient
                  (Start blockClient (reachable silentPeer) timeoutSchedule)))
     = Returned None.
Proof.
  split; reflexivity.
Qed.

(** C8, what the code does.  The peer confirms, but only after the timeout
    case has run.  The caller returns the timeout error; the helper then
    receives the confirmation, finds it in order and tries to signal on
    [regChan].  Nobody receives on that unbuffered channel any more: from
    then on, whatever is scheduled, the helper stays at its send and never
    runs its deferred [close(regChan)]. *)
Theorem register_helper_leaks_after_timeout :
  regOutcome (register (peer [RecvMsg (ack blockEvents)]) blockEvents lateSchedule)
    = Returned (Some errTimeout)
  /\ hpc (register (peer [RecvMsg (ack blockEvents)]) blockEvents lateSchedule)
     = HSend
  /\ forall more : list Label,
       hpc (run more
              (register (peer [RecvMsg (ack blockEvents)]) blockEvents
                 lateSchedule)) = HSend
       /\ regChanClosed
            (run more
               (register (peer [RecvMsg (ack blockEvents)]) blockEvents
                  lateSchedule)) = false.
Proof.
  split; [reflexivity | split; [reflexivity |]].
  intros more.
  destruct (@helperStuck_run more
              (register (peer [RecvMsg (ack blockEvents)]) blockEvents
                 lateSchedule))
    as (Hh & _ & Hc & _).
  - reflexivity.
  - split; [exact Hh | rewrite Hc; reflexivity].
Qed.

(** The helper's verdict is not always discarded either: when the frame
    lands between the two statements of the timeout path, [register] returns
    the helper's error, not the timeout error. *)
Lemma register_timeout_result_overwritten :
  taken (register eventFirstPeer blockEvents racingSchedule) = Some CaseTimeout
  /\ regOutcome (register eventFirstPeer blockEvents racingSchedule)
     = Returned (Some (Errorf "invalid Transaction object for register")).
Proof.
  split; reflexivity.
Qed.

(** On its error path the helper does finish after a timeout: a receive error
    skips the send and closes [regChan]. *)
Lemma register_helper_exits_on_late_error :
  regOutcome (register (peer [RecvErr io_EOF]) blockEvents
                (lateSchedule ++ [StepHelper]))
    = Returned (Some errTimeout)
  /\ hpc (register (peer [RecvErr io_EOF]) blockEvents
            (lateSchedule ++ [StepHelper])) = HExit.
Proof.
  split; reflexivity.
Qed.

(** ** The scenarios of the specification *)

(** The peer confirms, sends events A and B and closes: the subscriber sees
    [GetInterestedEvents], [Recv(A)], [Recv(B)], [Done(nil)]. *)
Example subscription_ack_A_B_close :
  filter isAdapterCall (subscription blockClient (reachable ackPeer) promptSchedule)
    = [EvGetInterestedEvents; EvRecv (txEvent "A") None;
       EvRecv (txEvent "B") None; EvDone None].
Proof. reflexivity. Qed.

(** The peer sends event A as the very first frame: [Start] fails and
    neither [Recv] nor [Done] is called. *)
Example subscription_event_before_ack :
  startOutcome (Start blockClient (reachable eventFirstPeer) promptSchedule)
    = Returned (Some (Errorf "invalid Transaction object for register"))
  /\ filter isAdapterCall
       (subscription blockClient (reachable eventFirstPeer) promptSchedule)
     = [EvGetInterestedEvents].
Proof. split; reflexivity. Qed.

(** * Further properties *)

(** ** The receive loop, on every run *)

Section ReceiveLoopRuns.

Context {A : Type} `{EventAdapter A}.

Lemma recvResults_app (t1 t2 : list Call) :
  recvResults (t1 ++ t2) = recvResults t1 ++ recvResults t2.
Proof.
  induction t1 as [| c t1 IH]; cbn; [reflexivity |].
  destruct c; cbn; rewrite IH; reflexivity.
Qed.

Lemma deliveredMsgs_app (t1 t2 : list Call) :
  deliveredMsgs (t1 ++ t2) = deliveredMsgs t1 ++ deliveredMsgs t2.
Proof.
  induction t1 as [| c t1 IH]; cbn; [reflexivity |].
  destruct c; cbn; rewrite IH; reflexivity.
Qed.

(** The loop itself makes three kinds of calls only. *)
Lemma recvLoop_calls (inb : list RecvResult) (ad : option A) :
  Forall (fun c => isStreamRecv c || isAdapterRecv c || isDone c = true)
         (loopTrace (recvLoop ad inb)).
Proof.
  revert ad. induction inb as [| r rest IH]; intros ad; cbn; [constructor |].
  destruct r as [m | [| msg]], ad as [a |]; cbn;
    repeat (constructor; [reflexivity |]); try constructor.
  - destruct (Recv a m) as [a' [e |]]; cbn;
      repeat (constructor; [reflexivity |]); try constructor. apply IH.
  - apply IH.
Qed.

Lemma recvLoop_no_closeSend (inb : list RecvResult) (ad : option A) :
  filter isCloseSend (loopTrace (recvLoop ad inb)) = [].
Proof.
  pose proof (recvLoop_calls inb ad) as Hall.
  induction Hall as [| c tr Hc _ IH]; cbn; [reflexivity |].
  destruct c; cbn in *; try discriminate; exact IH.
Qed.

Lemma recvLoop_no_send (inb : list RecvResult) (ad : option A) :
  filter isSend (loopTrace (recvLoop ad inb)) = [].
Proof.
  pose proof (recvLoop_calls inb ad) as Hall.
  induction Hall as [| c tr Hc _ IH]; cbn; [reflexivity |].
  destruct c; cbn in *; try discriminate; exact IH.
Qed.

Lemma recvLoop_consumes_prefix (inb : list RecvResult) (ad : option A) :
  inb = recvResults (loopTrace (recvLoop ad inb))
          ++ loopInbound (recvLoop ad inb).
Proof.
  revert ad. induction inb as [| r rest IH]; intros ad; cbn; [reflexivity |].
  destruct r as [m | [| msg]], ad as [a |]; cbn; try reflexivity.
  - destruct (Recv a m) as [a' [e |]]; cbn; [reflexivity |].
    f_equal. apply IH.
  - f_equal. apply IH.
Qed.

Lemma recvLoop_delivers_received (inb : list RecvResult) (a : A) :
  deliveredMsgs (loopTrace (recvLoop (Some a) inb))
    = messagesOf (recvResults (loopTrace (recvLoop (Some a) inb))).
Proof.
  revert a. induction inb as [| r rest IH]; intros a; cbn; [reflexivity |].
  destruct r as [m | [| msg]]; cbn; try reflexivity.
  destruct (Recv a m) as [a' [e |]]; cbn; [reflexivity |].
  f_equal. apply IH.
Qed.

Lemma recvLoop_done_last (inb : list RecvResult) (ad : option A) :
  filter isDone (loopTrace (recvLoop ad inb)) = []
  \/ exists (pre : list Call) (d : option error),
       loopTrace (recvLoop ad inb) = pre ++ [EvDone d]
       /\ filter isDone pre = []
       /\ loopOutcome (recvLoop ad inb) = Returned d.
Proof.
  revert ad. induction inb as [| r rest IH]; intros ad; cbn; [auto |].
  destruct r as [m | [| msg]], ad as [a |]; cbn; auto.
  - destruct (Recv a m) as [a' [e |]]; cbn; [auto |].
    destruct (IH (Some a')) as [Hnone | (pre & d & Htr & Hpre & Hout)]; auto.
    right. exists (EvStreamRecv (RecvMsg m) :: EvRecv m None :: pre), d.
    rewrite Htr. auto.
  - destruct (IH None) as [Hnone | (pre & d & Htr & Hpre & Hout)]; auto.
    right. exists (EvStreamRecv (RecvMsg m) :: pre), d.
    rewrite Htr. auto.
  - right. exists [EvStreamRecv (RecvErr io_EOF)], None. auto.
  - right. exists [EvStreamRecv (RecvErr (Errorf msg))], (Some (Errorf msg)).
    auto.
Qed.

Lemma recvLoop_nil_iff_eof (inb : list RecvResult) (ad : option A) :
  loopOutcome (recvLoop ad inb) = Returned None
  <-> In (EvStreamRecv (RecvErr io_EOF)) (loopTrace (recvLoop ad inb)).
Proof.
  revert ad. induction inb as [| r rest IH]; intros ad; cbn.
  - split; [discriminate | intros []].
  - destruct r as [m | [| msg]], ad as [a |]; cbn.
    + destruct (Recv a m) as [a' [e |]]; cbn.
      * split; [discriminate | intros [Hc | [Hc | []]]; discriminate].
      * rewrite IH. split; [auto |].
        intros [Hc | [Hc | Hin]]; try discriminate; exact Hin.
    + rewrite IH. split; [auto |].
      intros [Hc | Hin]; try discriminate; exact Hin.
    + split; auto.
    + split; auto.
    + split; [discriminate | intros [Hc | [Hc | []]]; discriminate].
    + split; [discriminate | intros [Hc | []]; discriminate].
Qed.

Lemma processEventsOn_delivers_received (a : A) (s : Stream) :
  deliveredMsgs (procTrace (processEventsOn (Some a) s))
    = messagesOf (recvResults (procTrace (processEventsOn (Some a) s))).
Proof.
  pose proof (recvLoop_delivers_received (inbound s) a) as Hloop.
  unfold processEventsOn.
  destruct (loopOutcome (recvLoop (Some a) (inbound s))); cbn; auto.
  rewrite deliveredMsgs_app, recvResults_app. cbn.
  now rewrite !app_nil_r.
Qed.

Lemma processEventsOn_done_last (ad : option A) (s : Stream) :
  filter isDone (procTrace (processEventsOn ad s)) = []
  \/ exists (pre : list Call) (d : option error),
       procTrace (processEventsOn ad s) = pre ++ [EvDone d; EvCloseSend]
       /\ filter isDone pre = []
       /\ procOutcome (processEventsOn ad s) = Returned d.
Proof.
  destruct (recvLoop_done_last (inbound s) ad)
    as [Hnone | (pre & d & Htr & Hpre & Hout)].
  - left. unfold processEventsOn.
    destruct (loopOutcome (recvLoop ad (inbound s))); cbn; auto.
    rewrite filter_app, Hnone. reflexivity.
  - right. exists pre, d.
    destruct (processEventsOn_returned _ _ Hout) as (Hp & Ho & _).
    rewrite Hp, Htr, <- app_assoc. auto.
Qed.

Lemma processEventsOn_consumes_prefix (ad : option A) (s : Stream) :
  inbound s
    = recvResults (procTrace (processEventsOn ad s))
        ++ inbound (procStream (processEventsOn ad s)).
Proof.
  pose proof (recvLoop_consumes_prefix (inbound s) ad) as Hpre.
  unfold processEventsOn.
  destruct (loopOutcome (recvLoop ad (inbound s))); cbn; auto.
  rewrite recvResults_app. cbn. now rewrite app_nil_r.
Qed.

(** X1.  With a subscriber, in every run of the loop, whatever the stream
    returns and whatever the handler answers: the messages handed to the
    subscriber's [Recv] are exactly the messages the stream's [Recv]
    returned, in the same order.  No frame is dropped, repeated, reordered
    or filtered by its variant. *)
Theorem processEvents_delivers_what_it_receives
  (ec : OBCEventClient A) (a : A) (r : ProcessResult A) :
  adapter ec = Some a ->
  processEvents ec = Some r ->
  deliveredMsgs (procTrace r) = messagesOf (recvResults (procTrace r)).
Proof.
  unfold processEvents. intros Had Hproc.
  destruct (stream ec) as [s |]; [| discriminate].
  injection Hproc as <-. rewrite Had.
  apply processEventsOn_delivers_received.
Qed.

(** X2.  In every run of the loop [Done] is called at most once; when it is
    called, it is the last call before the deferred half-close, and its
    argument is the value the loop returns. *)
Theorem processEvents_done_at_most_once
  (ec : OBCEventClient A) (r : ProcessResult A) :
  processEvents ec = Some r ->
  filter isDone (procTrace r) = []
  \/ exists (pre : list Call) (d : option error),
       procTrace r = pre ++ [EvDone d; EvCloseSend]
       /\ filter isDone pre = []
       /\ procOutcome r = Returned d.
Proof.
  unfold processEvents. intros Hproc.
  destruct (stream ec) as [s |]; [| discriminate].
  injection Hproc as <-. apply processEventsOn_done_last.
Qed.

(** X3.  When [processEvents] returns, for whatever reason, the deferred
    [CloseSend] has run exactly once, as the very last call, and the stream
    counts one more half-close; the loop has sent nothing. *)
Theorem processEvents_half_closes_on_return
  (ec : OBCEventClient A) (s : Stream) (r : ProcessResult A)
  (e : option error) :
  stream ec = Some s ->
  processEvents ec = Some r ->
  procOutcome r = Returned e ->
  (exists pre : list Call,
     procTrace r = pre ++ [EvCloseSend] /\ filter isCloseSend pre = [])
  /\ halfClosed (procStream r) = S (halfClosed s)
  /\ outbound (procStream r) = outbound s
  /\ filter isSend (procTrace r) = [].
Proof.
  unfold processEvents. intros Hs Hproc. rewrite Hs in Hproc.
  injection Hproc as <-.
  pose proof (recvLoop_no_closeSend (inbound s) (adapter ec)) as Hnc.
  pose proof (recvLoop_no_send (inbound s) (adapter ec)) as Hns.
  unfold processEventsOn.
  destruct (loopOutcome (recvLoop (adapter ec) (inbound s))) eqn:Hout; cbn;
    try discriminate.
  intros _. repeat split; auto.
  - eexists; split; [reflexivity | exact Hnc].
  - rewrite filter_app, Hns. reflexivity.
Qed.

(** X4.  [processEvents] returns nil exactly when the stream's [Recv] has
    reported [io.EOF]: a clean close is the only way the loop ends without
    an error, with or without a subscriber. *)
Theorem processEvents_nil_iff_clean_close
  (ec : OBCEventClient A) (r : ProcessResult A) :
  processEvents ec = Some r ->
  (procOutcome r = Returned None
   <-> In (EvStreamRecv (RecvErr io_EOF)) (procTrace r)).
Proof.
  unfold processEvents. intros Hproc.
  destruct (stream ec) as [s |]; [| discriminate].
  injection Hproc as <-.
  pose proof (recvLoop_nil_iff_eof (inbound s) (adapter ec)) as Hiff.
  unfold processEventsOn.
  destruct (loopOutcome (recvLoop (adapter ec) (inbound s))) as [e | |] eqn:Hout;
    cbn.
  - rewrite in_app_iff. cbn. rewrite <- Hiff.
    split; [intros [= ->]; auto |].
    intros [Hr | [Hc | []]]; [congruence | discriminate].
  - rewrite <- Hiff. split; discriminate.
  - rewrite <- Hiff. split; discriminate.
Qed.

(** X5.  The results the loop got from the stream's [Recv], followed by what
    the stream still holds afterwards, are exactly what the stream held
    before: every [Recv] takes one result, in order, and nothing behind the
    result that ended the loop is read. *)
Theorem processEvents_consumes_a_prefix
  (ec : OBCEventClient A) (s : Stream) (r : ProcessResult A) :
  stream ec = Some s ->
  processEvents ec = Some r ->
  inbound s = recvResults (procTrace r) ++ inbound (procStream r).
Proof.
  unfold processEvents. intros Hs Hproc. rewrite Hs in Hproc.
  injection Hproc as <-. apply processEventsOn_consumes_prefix.
Qed.

(** X6.  A loop that is blocked after the results [l1] goes on, when the
    results [l2] arrive, exactly as a loop started with the subscriber in
    the state the first stretch left it in: running on [l1 ++ l2] is running
    on [l1] and then on [l2]. *)
Theorem recvLoop_resumes (ad : option A) (l1 l2 : list RecvResult) :
  loopOutcome (recvLoop ad l1) = Pending ->
  recvLoop ad (l1 ++ l2)
    = emit (loopTrace (recvLoop ad l1))
           (recvLoop (loopAdapter (recvLoop ad l1)) l2).
Proof.
  revert ad. induction l1 as [| r rest IH]; intros ad; cbn.
  - intros _. destruct (recvLoop ad l2); reflexivity.
  - destruct r as [m | [| msg]], ad as [a |]; cbn; try discriminate.
    + destruct (Recv a m) as [a' [e |]]; cbn; [discriminate |].
      intros Hp. rewrite (IH _ Hp). reflexivity.
    + intros Hp. rewrite (IH _ Hp). reflexivity.
Qed.

End ReceiveLoopRuns.


(** ** The handshake, on every schedule *)

Section HandshakeRuns.

Variable s : Stream.
Variable ies : option (list InterestedEvent).
Variable sched : list Label.

(** The stream calls of a handshake: the send, and at most one receive,
    which took the first result off the stream. *)
Lemma register_trace :
  exists rs : list RecvResult,
    regTrace (register s ies sched)
      = EvSend (registerRequest ies) (sendErr s) :: map EvStreamRecv rs
    /\ inbound s = rs ++ inbound (regStream (register s ies sched))
    /\ (rs = [] \/ exists r0 : RecvResult, rs = [r0] /\ sendErr s = None)
    /\ outbound (regStream (register s ies sched))
       = outbound s ++ [registerRequest ies]
    /\ halfClosed (regStream (register s ies sched)) = halfClosed s
    /\ closeErr (regStream (register s ies sched)) = closeErr s.
Proof.
  destruct (sendErr s) as [e |] eqn:Hsend.
  - exists []. unfold register, ChatClient.Send. rewrite Hsend. cbn. auto 10.
  - destruct (@register_inv s ies sched Hsend) as (Hh & _).
    unfold helperInv in Hh.
    change (inbound (fst (ChatClient.Send s (registerRequest ies))))
      with (inbound s) in Hh.
    destruct (hpc (register s ies sched)); try contradiction;
      try (destruct Hh as [-> ->]; exists []; cbn; auto 10);
      destruct (inbound s) as [| r0 rest]; try contradiction;
      destruct Hh as (-> & -> & _); exists [r0]; cbn; eauto 10.
Qed.

(** X7.  Whatever the schedule, [register] sends exactly one frame, the
    registration request carrying the interest set it was given, and never
    half-closes the stream; it takes at most one result off the stream, the
    first one, and leaves the rest for the receive loop. *)
Theorem register_stream_footprint :
  sendErr s = None ->
  outbound (regStream (register s ies sched))
    = outbound s ++ [{| Event := Some (EventHubMessage_RegisterEvent
                                         {| Events := ies |}) |}]
  /\ halfClosed (regStream (register s ies sched)) = halfClosed s
  /\ filter isSend (regTrace (register s ies sched))
     = [EvSend (registerRequest ies) None]
  /\ inbound s
     = recvResults (regTrace (register s ies sched))
         ++ inbound (regStream (register s ies sched))
  /\ (recvResults (regTrace (register s ies sched)) = []
      \/ exists r0 : RecvResult,
           recvResults (regTrace (register s ies sched)) = [r0]).
Proof.
  intros Hsend.
  destruct register_trace as (rs & Htr & Hinb & Hrs & Hout & Hhc & _).
  rewrite Htr, Hsend.
  destruct Hrs as [-> | (r0 & -> & _)]; cbn in *; repeat split; eauto.
Qed.

(** [register] returns nil only if the request went out, the first result
    of [Recv] was a frame of the registration-acknowledgement variant, and
    [select] took [regChan]; the stream is then left at the frame after that
    acknowledgement. *)
Lemma register_nil_inv :
  regOutcome (register s ies sched) = Returned None ->
  sendErr s = None
  /\ taken (register s ies sched) = Some CaseRegChan
  /\ exists (acked : RegisterEvent) (rest : list RecvResult),
       inbound s
         = RecvMsg {| Event := Some (EventHubMessage_RegisterEvent acked) |}
             :: rest
       /\ inbound (regStream (register s ies sched)) = rest.
Proof.
  unfold regOutcome.
  destruct (mpc (register s ies sched)) as [| | | | r] eqn:Hm;
    try discriminate.
  intros [= ->].
  destruct (sendErr s) as [e |] eqn:Hsend.
  { destruct (@register_send_failed s ies sched e Hsend) as (Hm' & _).
    congruence. }
  split; [reflexivity |].
  destruct (@register_inv s ies sched Hsend) as (Hh & _ & Hsel & _).
  unfold helperInv in Hh. unfold selectInv in Hsel.
  change (inbound (fst (ChatClient.Send s (registerRequest ies))))
    with (inbound s) in *.
  rewrite Hm in Hsel.
  destruct (taken (register s ies sched)) as [[|] |].
  - split; [reflexivity |].
    destruct Hsel as (Hhpc & _ & [Hc | Hv]); [discriminate |].
    injection Hv as Hv.
    assert (Hst : match inbound s with
                  | [] => False
                  | r0 :: rest =>
                      regStream (register s ies sched)
                        = ChatClient.withInbound
                            (fst (ChatClient.Send s (registerRequest ies))) rest
                  end).
    { destruct Hhpc as [Hp | Hp]; rewrite Hp in Hh;
        destruct (inbound s); tauto. }
    destruct (inbound s) as [| [m | e] rest]; [contradiction | |];
      cbn in Hv; [| discriminate].
    destruct m as [[[acked | p | f] |]]; try discriminate.
    exists acked, rest. rewrite Hst. auto.
  - destruct Hsel as (_ & Hr & _). congruence.
  - destruct Hsel as ([Hc | Hc] & _); discriminate.
Qed.

Lemma run_app (l1 l2 : list Label) (st : RegState) :
  run (l1 ++ l2) st = run l2 (run l1 st).
Proof.
  revert st. induction l1 as [| l rest IH]; intros st; cbn; auto.
Qed.

(** X8.  The caller of [register] is never blocked for good.  Whatever has
    happened in the handshake so far, and whether or not the peer ever
    answers: once the timer fires and the caller is scheduled, [register]
    returns. *)
Theorem register_caller_never_stuck :
  exists r : option error,
    regOutcome (register s ies (sched ++ timeoutSchedule)) = Returned r.
Proof.
  unfold register, ChatClient.Send, regOutcome.
  destruct (sendErr s) as [e |]; cbn [mpc]; [eauto |].
  rewrite run_app.
  match goal with
  | |- context [run timeoutSchedule ?st] =>
      destruct (caller_can_always_return st) as [r Hr]
  end.
  exists r. unfold timeoutSchedule. now rewrite Hr.
Qed.

End HandshakeRuns.

(** ** Start, Stop and whole subscriptions, on every run *)

Section LifecycleRuns.

Context {A : Type} `{EventAdapter A}.

Variable ec : OBCEventClient A.
Variable net : Network.
Variable sched : list Label.

(** A [Start] that reached the handshake, taken apart. *)
Lemma Start_handshake_inv (st : RegState) :
  handshake (Start ec net sched) = Some st ->
  exists (a a1 : A) (l : list InterestedEvent) (s0 : Stream),
    adapter ec = Some a
    /\ dial net (peerAddress ec) = None
    /\ GetInterestedEvents a = (a1, Some l)
    /\ chat net = inl s0
    /\ st = register s0 (Some l) sched
    /\ startClient (Start ec net sched)
       = {| peerAddress := peerAddress ec; stream := Some (regStream st);
            adapter := Some a1 |}
    /\ startOutcome (Start ec net sched) = regOutcome st
    /\ startTrace (Start ec net sched)
       = [EvDial (peerAddress ec); EvGetInterestedEvents; EvChat]
           ++ regTrace st
           ++ (if loopStarted (Start ec net sched) then [EvGo] else []).
Proof.
  unfold Start.
  destruct (dial net (peerAddress ec)); [discriminate |].
  destruct (adapter ec) as [a |]; [| discriminate].
  destruct (GetInterestedEvents a) as [a1 [l |]] eqn:Hg; [| discriminate].
  destruct (chat net) as [s0 | e]; [| discriminate].
  set (reg := register s0 (Some l) sched). unfold regOutcome.
  destruct (mpc reg) as [| | | | [e |]] eqn:Hm;
    cbn [handshake startClient startOutcome startTrace loopStarted];
    intros [= <-]; exists a, a1, l, s0; rewrite ?Hm;
    rewrite ?app_nil_r, <- ?app_assoc; repeat split;
    try reflexivity; exact Hg.
Qed.

(** A [Start] that did not reach the handshake, taken apart. *)
Lemma Start_no_handshake_inv :
  handshake (Start ec net sched) = None ->
  loopStarted (Start ec net sched) = false
  /\ startOutcome (Start ec net sched) <> Returned None
  /\ (startTrace (Start ec net sched) = [EvDial (peerAddress ec)]
      \/ startTrace (Start ec net sched)
         = [EvDial (peerAddress ec); EvGetInterestedEvents]
      \/ startTrace (Start ec net sched)
         = [EvDial (peerAddress ec); EvGetInterestedEvents; EvChat]).
Proof.
  unfold Start.
  destruct (dial net (peerAddress ec)); [cbn; intuition discriminate |].
  destruct (adapter ec) as [a |]; [| cbn; intuition discriminate].
  destruct (GetInterestedEvents a) as [a1 [l |]];
    [| cbn; intuition discriminate].
  destruct (chat net) as [s0 | e]; [| cbn; intuition discriminate].
  destruct (mpc (register s0 (Some l) sched)) as [| | | | [e |]]; cbn;
    discriminate.
Qed.

(** [Start] makes no call of the subscriber's [Recv] or [Done] and no
    half-close; of the subscriber it calls [GetInterestedEvents] at most
    once. *)
Lemma Start_trace_quiet :
  deliveredMsgs (startTrace (Start ec net sched)) = []
  /\ filter isDone (startTrace (Start ec net sched)) = []
  /\ filter isCloseSend (startTrace (Start ec net sched)) = []
  /\ (filter isAdapterCall (startTrace (Start ec net sched)) = []
      \/ filter isAdapterCall (startTrace (Start ec net sched))
         = [EvGetInterestedEvents]).
Proof.
  destruct (handshake (Start ec net sched)) as [st |] eqn:Hh.
  - destruct (Start_handshake_inv Hh)
      as (a & a1 & l & s0 & _ & _ & _ & _ & -> & _ & _ & Htr).
    destruct (register_trace s0 (Some l) sched)
      as (rs & Hreg & _ & Hrs & _).
    rewrite Htr, Hreg.
    destruct Hrs as [-> | (r0 & -> & _)];
      destruct (loopStarted (Start ec net sched)); cbn; auto.
  - destruct (Start_no_handshake_inv Hh) as (_ & _ & [-> | [-> | ->]]);
      cbn; auto.
Qed.

(** [Start] returns nil only after an acknowledgement as first frame. *)
Lemma Start_success_inv :
  startOutcome (Start ec net sched) = Returned None ->
  exists (s0 st : Stream) (acked : RegisterEvent) (rest : list RecvResult),
    chat net = inl s0
    /\ sendErr s0 = None
    /\ inbound s0
       = RecvMsg {| Event := Some (EventHubMessage_RegisterEvent acked) |}
           :: rest
    /\ stream (startClient (Start ec net sched)) = Some st
    /\ inbound st = rest
    /\ loopStarted (Start ec net sched) = true.
Proof.
  intros Hout.
  destruct (handshake (Start ec net sched)) as [reg |] eqn:Hh.
  - destruct (Start_handshake_inv Hh)
      as (a & a1 & l & s0 & _ & _ & _ & Hc & -> & Hcl & Hreg & _).
    rewrite Hreg in Hout.
    destruct (register_nil_inv _ _ _ Hout)
      as (Hsend & _ & acked & rest & Hinb & Hrest).
    exists s0, (regStream (register s0 (Some l) sched)), acked, rest.
    rewrite Hcl. repeat split; auto.
    now apply Start_loop_iff_success; rewrite Hreg.
  - destruct (Start_no_handshake_inv Hh) as (_ & Hne & _). contradiction.
Qed.

(** X9.  [Start] itself never calls the subscriber's [Recv] or [Done], and
    never half-closes the stream, however it ends: of the subscriber it
    calls [GetInterestedEvents] only, at most once.  An error of the
    connection or of the handshake reaches the caller of [Start] and nobody
    else. *)
Theorem Start_never_notifies_subscriber :
  deliveredMsgs (startTrace (Start ec net sched)) = []
  /\ filter isDone (startTrace (Start ec net sched)) = []
  /\ filter isCloseSend (startTrace (Start ec net sched)) = []
  /\ (filter isAdapterCall (startTrace (Start ec net sched)) = []
      \/ filter isAdapterCall (startTrace (Start ec net sched))
         = [EvGetInterestedEvents]).
Proof.
  exact Start_trace_quiet.
Qed.

(** X10.  When [Chat] fails, [Start] returns the same connection error as
    for a failed dial, whatever error [Chat] reported; the subscriber has
    been asked for its interest set, no frame was sent, no loop is started
    and the stream handle is nil afterwards, even if it was set before. *)
Theorem Start_chat_failure (a : A) (l : list InterestedEvent) (e : error) :
  dial net (peerAddress ec) = None ->
  adapter ec = Some a ->
  snd (GetInterestedEvents a) = Some l ->
  chat net = inr e ->
  startOutcome (Start ec net sched)
    = Returned (Some (Errorf ("Could not create client conn to "
                                ++ peerAddress ec)))
  /\ startTrace (Start ec net sched)
     = [EvDial (peerAddress ec); EvGetInterestedEvents; EvChat]
  /\ loopStarted (Start ec net sched) = false
  /\ stream (startClient (Start ec net sched)) = None.
Proof.
  intros Hd Ha Hies Hc. unfold Start. rewrite Hd, Ha.
  destruct (GetInterestedEvents a) as [a1 l']. cbn in Hies. subst l'.
  rewrite Hc. cbn. auto.
Qed.

(** X11.  When sending the registration request fails, [Start] returns the
    error of [Send] itself; nothing is received, no loop is started, and the
    stream handle stays set. *)
Theorem Start_send_failure (a : A) (l : list InterestedEvent) (s0 : Stream)
  (e : error) :
  dial net (peerAddress ec) = None ->
  adapter ec = Some a ->
  snd (GetInterestedEvents a) = Some l ->
  chat net = inl s0 ->
  sendErr s0 = Some e ->
  startOutcome (Start ec net sched) = Returned (Some e)
  /\ startTrace (Start ec net sched)
     = [EvDial (peerAddress ec); EvGetInterestedEvents; EvChat;
        EvSend (registerRequest (Some l)) (Some e)]
  /\ loopStarted (Start ec net sched) = false
  /\ stream (startClient (Start ec net sched)) <> None.
Proof.
  intros Hd Ha Hies Hc Hsend. unfold Start. rewrite Hd, Ha.
  destruct (GetInterestedEvents a) as [a1 l']. cbn in Hies. subst l'.
  rewrite Hc.
  destruct (@register_send_failed s0 (Some l) sched e Hsend) as (Hm & Htr & _).
  rewrite Hm.
  cbn [startOutcome startTrace loopStarted startClient stream].
  rewrite Htr. repeat split; auto. discriminate.
Qed.

(** X12.  Any interest set that is not nil is registered, the empty one
    too: after a successful dial and [Chat], the first stream call of [Start]
    sends a registration request carrying exactly the slice the subscriber
    returned. *)
Theorem Start_registers_interests (a : A) (l : list InterestedEvent)
  (s0 : Stream) :
  dial net (peerAddress ec) = None ->
  adapter ec = Some a ->
  snd (GetInterestedEvents a) = Some l ->
  chat net = inl s0 ->
  exists (tl : list Call) (st : Stream),
    startTrace (Start ec net sched)
      = [EvDial (peerAddress ec); EvGetInterestedEvents; EvChat;
         EvSend {| Event := Some (EventHubMessage_RegisterEvent
                                    {| Events := Some l |}) |} (sendErr s0)]
          ++ tl
    /\ filter isSend tl = []
    /\ stream (startClient (Start ec net sched)) = Some st
    /\ outbound st
       = outbound s0 ++ [{| Event := Some (EventHubMessage_RegisterEvent
                                             {| Events := Some l |}) |}].
Proof.
  intros Hd Ha Hies Hc.
  destruct (handshake (Start ec net sched)) as [st |] eqn:Hh.
  - destruct (Start_handshake_inv Hh)
      as (a' & a1 & l' & s0' & Ha' & _ & Hg & Hc' & -> & Hcl & _ & Htr).
    rewrite Ha in Ha'. injection Ha' as <-. rewrite Hg in Hies. cbn in Hies.
    injection Hies as ->. rewrite Hc in Hc'. injection Hc' as <-.
    destruct (register_trace s0 (Some l) sched)
      as (rs & Hreg & _ & Hrs & Hout & _).
    exists (map EvStreamRecv rs
              ++ (if loopStarted (Start ec net sched) then [EvGo] else [])),
           (regStream (register s0 (Some l) sched)).
    rewrite Htr, Hreg, Hcl. cbn. repeat split; auto.
    destruct Hrs as [-> | (r0 & -> & _)];
      destruct (loopStarted (Start ec net sched)); reflexivity.
  - exfalso. revert Hh. unfold Start. rewrite Hd, Ha.
    destruct (GetInterestedEvents a) as [a1 l']. cbn in Hies. subst l'.
    rewrite Hc.
    destruct (mpc (register s0 (Some l) sched)) as [| | | | [e |]];
      discriminate.
Qed.

(** X13.  [Start] returns nil only if the request could be sent and the
    first frame the peer sent on the new stream was a registration
    acknowledgement; the loop it then starts finds the stream at the frame
    after that acknowledgement. *)
Theorem Start_success_needs_acknowledgement :
  startOutcome (Start ec net sched) = Returned None ->
  exists (s0 st : Stream) (acked : RegisterEvent) (rest : list RecvResult),
    chat net = inl s0
    /\ sendErr s0 = None
    /\ inbound s0
       = RecvMsg {| Event := Some (EventHubMessage_RegisterEvent acked) |}
           :: rest
    /\ stream (startClient (Start ec net sched)) = Some st
    /\ inbound st = rest
    /\ loopStarted (Start ec net sched) = true.
Proof.
  exact Start_success_inv.
Qed.

(** X14.  Once [Chat] has succeeded the stream handle is set, so [Stop]
    no longer panics: after any [Start] that reached the handshake, failed
    or not, [Stop] returns what the stream's [CloseSend] reports. *)
Theorem Stop_after_handshake (reg : RegState) :
  handshake (Start ec net sched) = Some reg ->
  exists s0 : Stream,
    chat net = inl s0
    /\ fst (Stop (startClient (Start ec net sched))) = Returned (closeErr s0).
Proof.
  intros Hh.
  destruct (Start_handshake_inv Hh)
    as (a & a1 & l & s0 & _ & _ & _ & Hc & -> & Hcl & _).
  destruct (register_trace s0 (Some l) sched) as (rs & _ & _ & _ & _ & _ & Hce).
  exists s0. split; [exact Hc |].
  rewrite Hcl. unfold Stop, ChatClient.CloseSend. cbn [stream fst].
  now rewrite Hce.
Qed.

(** X15.  If [Start] does not return nil, the subscription makes no call
    beyond those of [Start]: the subscriber never sees a [Recv] or a
    [Done]. *)
Theorem subscription_failed_start_is_silent :
  startOutcome (Start ec net sched) <> Returned None ->
  subscription ec net sched = startTrace (Start ec net sched)
  /\ deliveredMsgs (subscription ec net sched) = []
  /\ filter isDone (subscription ec net sched) = [].
Proof.
  intros Hne.
  assert (Hloop : loopStarted (Start ec net sched) = false).
  { destruct (loopStarted (Start ec net sched)) eqn:Hl; [| reflexivity].
    apply Start_loop_iff_success in Hl. contradiction. }
  destruct Start_trace_quiet as (Hd & Hdone & _).
  unfold subscription. rewrite Hloop. auto.
Qed.

(** X16.  In a whole subscription, [Start] and the loop it starts, [Done] is
    called at most once. *)
Theorem subscription_done_at_most_once :
  filter isDone (subscription ec net sched) = []
  \/ exists d : option error,
       filter isDone (subscription ec net sched) = [EvDone d].
Proof.
  destruct Start_trace_quiet as (_ & Hdone & _).
  unfold subscription.
  destruct (loopStarted (Start ec net sched)); auto.
  unfold processEvents.
  destruct (stream (startClient (Start ec net sched))) as [st |]; auto.
  rewrite filter_app, Hdone. cbn [app].
  destruct (processEventsOn_done_last
              (adapter (startClient (Start ec net sched))) st)
    as [Hnone | (pre & d & Htr & Hpre & _)]; auto.
  right. exists d. rewrite Htr, filter_app, Hpre. reflexivity.
Qed.

(** X17.  In a subscription whose [Start] returned nil, the messages the
    subscriber receives are, in order, the messages among an initial stretch
    of what the peer sent after its acknowledgement: the acknowledgement
    itself is not delivered, and nothing is delivered twice or out of
    order. *)
Theorem subscription_delivers_after_acknowledgement :
  startOutcome (Start ec net sched) = Returned None ->
  exists (s0 : Stream) (acked : RegisterEvent)
         (consumed left : list RecvResult),
    chat net = inl s0
    /\ inbound s0
       = RecvMsg {| Event := Some (EventHubMessage_RegisterEvent acked) |}
           :: consumed ++ left
    /\ deliveredMsgs (subscription ec net sched) = messagesOf consumed.
Proof.
  intros Hout.
  destruct (Start_success_inv Hout)
    as (s0 & st & acked & rest & Hc & _ & Hinb & Hst & Hrest & Hloop).
  destruct Start_trace_quiet as (Hd & _).
  destruct (handshake (Start ec net sched)) as [reg |] eqn:Hh.
  2:{ destruct (Start_no_handshake_inv Hh) as (_ & Hne & _). contradiction. }
  destruct (Start_handshake_inv Hh)
    as (a & a1 & l & s0' & _ & _ & _ & _ & _ & Hcl & _).
  assert (Hp : processEvents (startClient (Start ec net sched))
               = Some (processEventsOn (Some a1) st)).
  { unfold processEvents. rewrite Hst. rewrite Hcl. reflexivity. }
  exists s0, acked, (recvResults (procTrace (processEventsOn (Some a1) st))),
         (inbound (procStream (processEventsOn (Some a1) st))).
  split; [exact Hc |]. split.
  - rewrite Hinb. f_equal. rewrite <- Hrest.
    apply processEventsOn_consumes_prefix.
  - unfold subscription. rewrite Hloop, Hp, deliveredMsgs_app, Hd. cbn [app].
    apply processEventsOn_delivers_received.
Qed.

(** X18.  When the dial fails, [Start] returns a connection error that
    names the address and hides the cause, whatever [grpc.Dial] reported;
    it has not asked the subscriber, opened no stream, started no loop and
    left the client as it was. *)
Theorem Start_dial_failure_hides_cause (e : error) :
  dial net (peerAddress ec) = Some e ->
  startOutcome (Start ec net sched)
    = Returned (Some (Errorf ("Could not create client conn to "
                                ++ peerAddress ec)))
  /\ startTrace (Start ec net sched) = [EvDial (peerAddress ec)]
  /\ loopStarted (Start ec net sched) = false
  /\ startClient (Start ec net sched) = ec.
Proof.
  intros Hd. rewrite (Start_dial_failure ec net sched Hd). cbn. auto.
Qed.

(** X19.  [Start] runs [go ec.processEvents()] exactly when it returns
    nil: no loop after a failed [Start], no successful [Start] without a
    loop. *)
Theorem Start_starts_loop_iff_nil :
  loopStarted (Start ec net sched) = true
  <-> startOutcome (Start ec net sched) = Returned None.
Proof.
  apply Start_loop_iff_success.
Qed.

(** X20.  However the helper and the caller interleave, and whatever the
    peer sends afterwards: a [Start] whose handshake left its [select] by
    the timeout case returns an error, starts no loop and calls no
    [Done]. *)
Theorem Start_timeout_always_fails (st : RegState) (r : option error) :
  handshake (Start ec net sched) = Some st ->
  taken st = Some CaseTimeout ->
  startOutcome (Start ec net sched) = Returned r ->
  r <> None
  /\ loopStarted (Start ec net sched) = false
  /\ filter isGo (startTrace (Start ec net sched)) = []
  /\ filter isDone (startTrace (Start ec net sched)) = [].
Proof.
  apply Start_timeout_never_starts_loop.
Qed.

(** X21.  When the stream breaks, or the peer closes it, before confirming,
    and [select] takes [regChan], [Start] returns that very receive error
    ([io.EOF] for a close) and starts no loop. *)
Theorem Start_reports_receive_error (st : RegState) (s0 : Stream)
  (e : error) (rest : list RecvResult) (r : option error) :
  handshake (Start ec net sched) = Some st ->
  chat net = inl s0 ->
  sendErr s0 = None ->
  inbound s0 = RecvErr e :: rest ->
  taken st = Some CaseRegChan ->
  startOutcome (Start ec net sched) = Returned r ->
  r = Some e /\ loopStarted (Start ec net sched) = false.
Proof.
  intros Hh Hc Hsend Hinb Htaken Hout.
  destruct (Start_handshake_inv Hh)
    as (a & a1 & l & s0' & _ & _ & _ & Hc' & -> & _ & Hreg & _).
  rewrite Hc in Hc'. injection Hc' as <-.
  rewrite Hreg in Hout. unfold regOutcome in Hout.
  destruct (mpc (register s0 (Some l) sched)) as [| | | | r'] eqn:Hm;
    try discriminate.
  injection Hout as ->.
  assert (Hr : r = Some e).
  { exact (@register_returns_receive_error s0 (Some l) sched e rest r
             Hsend Hinb Htaken Hm). }
  split; [exact Hr |].
  destruct (loopStarted (Start ec net sched)) eqn:Hl; [| reflexivity].
  apply Start_loop_iff_success in Hl. rewrite Hreg in Hl.
  unfold regOutcome in Hl. rewrite Hm in Hl. congruence.
Qed.

(** X22.  Without a subscriber [Start] does not fail cleanly: it dials, and
    then panics on [ec.adapter.GetInterestedEvents()]. *)
Theorem Start_without_subscriber_panics :
  dial net (peerAddress ec) = None ->
  adapter ec = None ->
  startOutcome (Start ec net sched) = Panicked
  /\ startTrace (Start ec net sched) = [EvDial (peerAddress ec)].
Proof.
  apply Start_nil_adapter_panics.
Qed.

End LifecycleRuns.

(** ** The handshake that times out *)

Section TimeoutOutcome.






Context {A : Type} `{EventAdapter A}.

Variable ec : OBCEventClient A.
Variable net : Network.


End TimeoutOutcome.

(** ** The transport factory *)

Section Transport.

Variable viper : Viper.
Variable readCert : string -> option error.
Variable grpcDial : string -> list DialOption -> option error.
Variable peerAddress : string.

(** The server name handed to the credentials is the configured override as
    it stands: the test for the empty string changes nothing. *)
Lemma server_name_is_override :
  (if negb (String.eqb (GetString viper "peer.tls.server-host-override") "")
   then GetString viper "peer.tls.server-host-override"
   else "")
  = GetString viper "peer.tls.server-host-override".
Proof.
  destruct (String.eqb_spec (GetString viper "peer.tls.server-host-override") "")
    as [Heq | Hne]; cbn; congruence.
Qed.

(** X23.  Whenever [newEventHubClientConnectionWithAddress] gets as far as
    [grpc.Dial], it dials the address it was given and returns what
    [grpc.Dial] returns; the options end with a timeout of three seconds,
    [WithBlock] and [WithInsecure], in this order.  Before them stands one
    credentials option when TLS is enabled and nothing when it is not: so
    [WithInsecure] is passed even together with TLS credentials. *)
Theorem connection_dial_options (target : string) (opts : list DialOption)
  (res : option error) :
  newEventHubClientConnectionWithAddress viper readCert grpcDial peerAddress
    = Dialed target opts res ->
  target = peerAddress
  /\ res = grpcDial peerAddress opts
  /\ exists pre : list DialOption,
       opts = pre ++ [WithTimeout 3000000000; WithBlock; WithInsecure]
       /\ (GetBool viper "peer.tls.enabled" = false -> pre = [])
       /\ (GetBool viper "peer.tls.enabled" = true ->
           exists c : TransportAuthenticator,
             pre = [WithTransportCredentials c]).
Proof.
  unfold newEventHubClientConnectionWithAddress.
  destruct (GetBool viper "peer.tls.enabled").
  - destruct (negb (String.eqb (GetString viper "peer.tls.cert.file") "")).
    + destruct (readCert (GetString viper "peer.tls.cert.file"));
        [discriminate |].
      intros [= <- <- <-]. repeat split; auto.
      eexists (_ :: nil); split; [reflexivity |].
      split; [discriminate | eauto].
    + intros [= <- <- <-]. repeat split; auto.
      eexists (_ :: nil); split; [reflexivity |].
      split; [discriminate | eauto].
  - intros [= <- <- <-]. repeat split; auto.
    exists []. split; [reflexivity |]. split; [auto | discriminate].
Qed.

(** X24.  The connection attempt ends the process through [grpclog.Fatalf],
    before any dial, exactly when TLS is enabled, a certificate file is
    configured and that file cannot be loaded; the error is the one of the
    load.  No other setting and no dial failure is fatal. *)
Theorem connection_fatal_iff (e : error) :
  newEventHubClientConnectionWithAddress viper readCert grpcDial peerAddress
    = Fatalf e
  <-> GetBool viper "peer.tls.enabled" = true
      /\ GetString viper "peer.tls.cert.file" <> ""
      /\ readCert (GetString viper "peer.tls.cert.file") = Some e.
Proof.
  unfold newEventHubClientConnectionWithAddress.
  destruct (GetBool viper "peer.tls.enabled").
  - destruct (String.eqb_spec (GetString viper "peer.tls.cert.file") "")
      as [Heq | Hne]; cbn [negb].
    + split; [discriminate | intros (_ & Hc & _); contradiction].
    + destruct (readCert (GetString viper "peer.tls.cert.file")) as [e' |].
      * split; [intros [= ->]; auto | intros (_ & _ & [= ->]); reflexivity].
      * split; [discriminate | intros (_ & _ & Hc); discriminate].
  - split; [discriminate | intros (Hc & _); discriminate].
Qed.

(** X25.  With TLS enabled, the first option carries the credentials: made
    from the configured certificate file if there is one, from a nil
    certificate pool otherwise, and in both cases for the server name that
    is configured as host override, empty or not. *)
Theorem connection_tls_credentials (target : string) (opts : list DialOption)
  (res : option error) :
  GetBool viper "peer.tls.enabled" = true ->
  newEventHubClientConnectionWithAddress viper readCert grpcDial peerAddress
    = Dialed target opts res ->
  exists (c : TransportAuthenticator) (tl : list DialOption),
    opts = WithTransportCredentials c :: tl
    /\ filter isCredentials tl = []
    /\ serverNameOf c = GetString viper "peer.tls.server-host-override"
    /\ (GetString viper "peer.tls.cert.file" = "" ->
        c = NewClientTLSFromCert
              (GetString viper "peer.tls.server-host-override"))
    /\ (GetString viper "peer.tls.cert.file" <> "" ->
        c = NewClientTLSFromFile
              (GetString viper "peer.tls.cert.file")
              (GetString viper "peer.tls.server-host-override")
        /\ readCert (GetString viper "peer.tls.cert.file") = None).
Proof.
  intros Htls. unfold newEventHubClientConnectionWithAddress.
  rewrite Htls, server_name_is_override.
  destruct (String.eqb_spec (GetString viper "peer.tls.cert.file") "")
    as [Heq | Hne]; cbn [negb].
  - intros [= <- <- <-]. do 2 eexists. split; [reflexivity |].
    repeat split; auto; contradiction.
  - destruct (readCert (GetString viper "peer.tls.cert.file")) as [e' |];
      [discriminate |].
    intros [= <- <- <-]. do 2 eexists. split; [reflexivity |].
    repeat split; auto; contradiction.
Qed.

End Transport.

(** ** The further properties on concrete runs *)

Lemma processEvents_delivers_what_it_receives_witness :
  deliveredMsgs (procTrace (processEventsOn (Some rejectingB) closingPeer))
    = messagesOf
        (recvResults (procTrace (processEventsOn (Some rejectingB) closingPeer))).
Proof.
  apply (@processEvents_delivers_what_it_receives Recorder _
           (streaming (Some rejectingB) closingPeer) rejectingB);
    reflexivity.
Defined.

Lemma processEvents_done_at_most_once_witness :
  filter isDone (procTrace (processEventsOn (Some accepting) brokenPeer)) = []
  \/ exists (pre : list Call) (d : option error),
       procTrace (processEventsOn (Some accepting) brokenPeer)
         = pre ++ [EvDone d; EvCloseSend]
       /\ filter isDone pre = []
       /\ procOutcome (processEventsOn (Some accepting) brokenPeer) = Returned d.
Proof.
  apply (@processEvents_done_at_most_once Recorder _
           (streaming (Some accepting) brokenPeer)).
  reflexivity.
Defined.

Lemma processEvents_half_closes_on_return_witness :
  procOutcome (processEventsOn (Some rejectingB) closingPeer)
    = Returned (Some (Errorf "rejected B"))
  /\ halfClosed (procStream (processEventsOn (Some rejectingB) closingPeer))
     = S (halfClosed closingPeer)
  /\ outbound (procStream (processEventsOn (Some rejectingB) closingPeer))
     = outbound closingPeer.
Proof.
  destruct (@processEvents_half_closes_on_return Recorder _
              (streaming (Some rejectingB) closingPeer) closingPeer
              (processEventsOn (Some rejectingB) closingPeer)
              (Some (Errorf "rejected B")))
    as (_ & Hhc & Hout & _).
  - reflexivity.
  - reflexivity.
  - reflexivity.
  - split; [reflexivity | split; [exact Hhc | exact Hout]].
Defined.

Lemma processEvents_nil_iff_clean_close_witness :
  procOutcome (processEventsOn (@None Recorder) closingPeer) = Returned None
  <-> In (EvStreamRecv (RecvErr io_EOF))
         (procTrace (processEventsOn (@None Recorder) closingPeer)).
Proof.
  apply (@processEvents_nil_iff_clean_close Recorder _
           (streaming None closingPeer)).
  reflexivity.
Defined.

Lemma processEvents_consumes_a_prefix_witness :
  inbound brokenPeer
    = recvResults (procTrace (processEventsOn (Some accepting) brokenPeer))
        ++ [RecvMsg (txEvent "B")].
Proof.
  change [RecvMsg (txEvent "B")]
    with (inbound (procStream (processEventsOn (Some accepting) brokenPeer))).
  apply (@processEvents_consumes_a_prefix Recorder _
           (streaming (Some accepting) brokenPeer) brokenPeer
           (processEventsOn (Some accepting) brokenPeer));
    reflexivity.
Defined.

Lemma recvLoop_resumes_witness :
  loopOutcome (recvLoop (Some accepting) [RecvMsg (txEvent "A")]) = Pending
  /\ recvLoop (Some accepting) ([RecvMsg (txEvent "A")] ++ [RecvErr io_EOF])
     = emit (loopTrace (recvLoop (Some accepting) [RecvMsg (txEvent "A")]))
         (recvLoop
            (loopAdapter (recvLoop (Some accepting) [RecvMsg (txEvent "A")]))
            [RecvErr io_EOF]).
Proof.
  split; [reflexivity |].
  apply (@recvLoop_resumes Recorder _ (Some accepting)). reflexivity.
Defined.

Lemma register_stream_footprint_witness :
  outbound (regStream (register ackPeer blockEvents promptSchedule))
    = [registerRequest blockEvents]
  /\ halfClosed (regStream (register ackPeer blockEvents promptSchedule)) = 0.
Proof.
  destruct (@register_stream_footprint ackPeer blockEvents promptSchedule)
    as (Hout & Hhc & _).
  - reflexivity.
  - split; [exact Hout | exact Hhc].
Defined.

Lemma Start_chat_failure_witness :
  startOutcome (Start blockClient noChat promptSchedule)
    = Returned (Some (Errorf "Could not create client conn to peer:31315"))
  /\ stream (startClient (Start blockClient noChat promptSchedule)) = None.
Proof.
  destruct (@Start_chat_failure Recorder _ blockClient noChat promptSchedule
              accepting [{| EventType := "block-events" |}]
              (Errorf "rpc error: code = 12"))
    as (Hout & _ & _ & Hs); try reflexivity.
  split; [exact Hout | exact Hs].
Defined.

Lemma Start_send_failure_witness :
  startOutcome (Start blockClient (reachable deafPeer) promptSchedule)
    = Returned (Some (Errorf "transport is closing"))
  /\ loopStarted (Start blockClient (reachable deafPeer) promptSchedule)
     = false.
Proof.
  destruct (@Start_send_failure Recorder _ blockClient (reachable deafPeer)
              promptSchedule accepting [{| EventType := "block-events" |}]
              deafPeer (Errorf "transport is closing"))
    as (Hout & _ & Hl & _); try reflexivity.
  split; [exact Hout | exact Hl].
Defined.

Lemma Start_registers_interests_witness :
  exists (tl : list Call) (st : Stream),
    startTrace (Start emptyClient (reachable ackPeer) promptSchedule)
      = [EvDial peerAddr; EvGetInterestedEvents; EvChat;
         EvSend {| Event := Some (EventHubMessage_RegisterEvent
                                    {| Events := Some [] |}) |} None] ++ tl
    /\ filter isSend tl = []
    /\ stream (startClient (Start emptyClient (reachable ackPeer) promptSchedule))
       = Some st
    /\ outbound st
       = outbound ackPeer
           ++ [{| Event := Some (EventHubMessage_RegisterEvent
                                   {| Events := Some [] |}) |}].
Proof.
  apply (@Start_registers_interests Recorder _ emptyClient (reachable ackPeer)
           promptSchedule (recorder (Some []) None) [] ackPeer);
    reflexivity.
Defined.

Lemma Start_success_needs_acknowledgement_witness :
  exists (s0 st : Stream) (acked : RegisterEvent) (rest : list RecvResult),
    chat (reachable ackPeer) = inl s0
    /\ sendErr s0 = None
    /\ inbound s0
       = RecvMsg {| Event := Some (EventHubMessage_RegisterEvent acked) |}
           :: rest
    /\ stream (startClient (Start blockClient (reachable ackPeer) promptSchedule))
       = Some st
    /\ inbound st = rest
    /\ loopStarted (Start blockClient (reachable ackPeer) promptSchedule) = true.
Proof.
  apply (@Start_success_needs_acknowledgement Recorder _ blockClient
           (reachable ackPeer) promptSchedule).
  reflexivity.
Defined.

Lemma Stop_after_handshake_witness :
  exists s0 : Stream,
    chat (reachable silentPeer) = inl s0
    /\ fst (Stop (startClient
                    (Start blockClient (reachable silentPeer) timeoutSchedule)))
       = Returned (closeErr s0).
Proof.
  apply (@Stop_after_handshake Recorder _ blockClient (reachable silentPeer)
           timeoutSchedule (register silentPeer blockEvents timeoutSchedule)).
  reflexivity.
Defined.

Lemma subscription_failed_start_is_silent_witness :
  subscription blockClient (reachable eventFirstPeer) promptSchedule
    = startTrace (Start blockClient (reachable eventFirstPeer) promptSchedule)
  /\ deliveredMsgs
       (subscription blockClient (reachable eventFirstPeer) promptSchedule)
     = []
  /\ filter isDone
       (subscription blockClient (reachable eventFirstPeer) promptSchedule)
     = [].
Proof.
  apply (@subscription_failed_start_is_silent Recorder _ blockClient
           (reachable eventFirstPeer) promptSchedule).
  cbn. discriminate.
Defined.

Lemma subscription_delivers_after_acknowledgement_witness :
  exists (s0 : Stream) (acked : RegisterEvent)
         (consumed left : list RecvResult),
    chat (reachable ackPeer) = inl s0
    /\ inbound s0
       = RecvMsg {| Event := Some (EventHubMessage_RegisterEvent acked) |}
           :: consumed ++ left
    /\ deliveredMsgs (subscription blockClient (reachable ackPeer) promptSchedule)
       = messagesOf consumed.
Proof.
  apply (@subscription_delivers_after_acknowledgement Recorder _ blockClient
           (reachable ackPeer) promptSchedule).
  reflexivity.
Defined.

Lemma Start_dial_failure_hides_cause_witness :
  startOutcome (Start blockClient unreachable promptSchedule)
    = Returned (Some (Errorf "Could not create client conn to peer:31315"))
  /\ startTrace (Start blockClient unreachable promptSchedule)
     = [EvDial peerAddr].
Proof.
  destruct (@Start_dial_failure_hides_cause Recorder _ blockClient unreachable
              promptSchedule (Errorf "context deadline exceeded"))
    as (Hout & Htr & _).
  - reflexivity.
  - split; [exact Hout | exact Htr].
Defined.

Lemma Start_timeout_always_fails_witness :
  taken (register eventFirstPeer blockEvents racingSchedule) = Some CaseTimeout
  /\ Some (Errorf "invalid Transaction object for register") <> None
  /\ loopStarted (Start blockClient (reachable eventFirstPeer) racingSchedule)
     = false.
Proof.
  destruct (@Start_timeout_always_fails Recorder _ blockClient
              (reachable eventFirstPeer) racingSchedule
              (register eventFirstPeer blockEvents racingSchedule)
              (Some (Errorf "invalid Transaction object for register")))
    as (Hr & Hl & _); try reflexivity.
  split; [reflexivity | split; [exact Hr | exact Hl]].
Defined.

Lemma Start_reports_receive_error_witness :
  startOutcome
    (Start blockClient (reachable (peer [RecvErr io_EOF]))
       [StepHelper; StepHelper; StepHelper; StepMain; SelectRegChan; StepMain])
    = Returned (Some io_EOF)
  /\ loopStarted
       (Start blockClient (reachable (peer [RecvErr io_EOF]))
          [StepHelper; StepHelper; StepHelper; StepMain; SelectRegChan; StepMain])
     = false.
Proof.
  destruct (@Start_reports_receive_error Recorder _ blockClient
              (reachable (peer [RecvErr io_EOF]))
              [StepHelper; StepHelper; StepHelper; StepMain; SelectRegChan;
               StepMain]
              (register (peer [RecvErr io_EOF]) blockEvents
                 [StepHelper; StepHelper; StepHelper; StepMain; SelectRegChan;
                  StepMain])
              (peer [RecvErr io_EOF]) io_EOF [] (Some io_EOF))
    as (_ & Hl); try reflexivity.
  split; [reflexivity | exact Hl].
Defined.

Lemma Start_without_subscriber_panics_witness :
  startOutcome
    (Start (@NewOBCEventHubClient Recorder peerAddr None) (reachable ackPeer)
       promptSchedule) = Panicked
  /\ startTrace
       (Start (@NewOBCEventHubClient Recorder peerAddr None) (reachable ackPeer)
          promptSchedule) = [EvDial peerAddr].
Proof.
  apply (@Start_without_subscriber_panics Recorder _
           (@NewOBCEventHubClient Recorder peerAddr None) (reachable ackPeer)
           promptSchedule); reflexivity.
Defined.

Lemma connection_dial_options_witness :
  exists pre : list DialOption,
    [WithTransportCredentials (NewClientTLSFromCert "peer0");
     WithTimeout 3000000000; WithBlock; WithInsecure]
      = pre ++ [WithTimeout 3000000000; WithBlock; WithInsecure]
    /\ (GetBool (tlsConfig true "peer0" "") "peer.tls.enabled" = false
        -> pre = [])
    /\ (GetBool (tlsConfig true "peer0" "") "peer.tls.enabled" = true ->
        exists c : TransportAuthenticator, pre = [WithTransportCredentials c]).
Proof.
  destruct (@connection_dial_options (tlsConfig true "peer0" "")
              (onlyCert "ca.pem") dialOk peerAddr peerAddr
              [WithTransportCredentials (NewClientTLSFromCert "peer0");
               WithTimeout 3000000000; WithBlock; WithInsecure] None)
    as (_ & _ & Hopts).
  - reflexivity.
  - exact Hopts.
Defined.

Lemma connection_tls_credentials_witness :
  exists (c : TransportAuthenticator) (tl : list DialOption),
    [WithTransportCredentials (NewClientTLSFromFile "ca.pem" "peer0");
     WithTimeout 3000000000; WithBlock; WithInsecure]
      = WithTransportCredentials c :: tl
    /\ filter isCredentials tl = []
    /\ serverNameOf c
       = GetString (tlsConfig true "peer0" "ca.pem")
           "peer.tls.server-host-override"
    /\ (GetString (tlsConfig true "peer0" "ca.pem") "peer.tls.cert.file" = "" ->
        c = NewClientTLSFromCert
              (GetString (tlsConfig true "peer0" "ca.pem")
                 "peer.tls.server-host-override"))
    /\ (GetString (tlsConfig true "peer0" "ca.pem") "peer.tls.cert.file" <> "" ->
        c = NewClientTLSFromFile
              (GetString (tlsConfig true "peer0" "ca.pem") "peer.tls.cert.file")
              (GetString (tlsConfig true "peer0" "ca.pem")
                 "peer.tls.server-host-override")
        /\ onlyCert "ca.pem"
             (GetString (tlsConfig true "peer0" "ca.pem") "peer.tls.cert.file")
           = None).
Proof.
  apply (@connection_tls_credentials (tlsConfig true "peer0" "ca.pem")
           (onlyCert "ca.pem") dialOk peerAddr peerAddr
           [WithTransportCredentials (NewClientTLSFromFile "ca.pem" "peer0");
            WithTimeout 3000000000; WithBlock; WithInsecure] None);
    reflexivity.
Defined.

(** An unreadable certificate file is fatal, and nothing is dialled. *)
Example connection_unreadable_certificate :
  newEventHubClientConnectionWithAddress (tlsConfig true "" "missing.pem")
    (onlyCert "ca.pem") dialOk peerAddr
  = Fatalf (Errorf "open missing.pem: no such file or directory").
Proof. reflexivity. Qed.


